(** * The movie catalogue stores

    A shallow embedding of the two storage back ends of the movie
    application, [storage_csv.py] (class [StorageCsv]) and
    [storage_json.py] (class [StorageJson]), and the properties of the
    catalogue specification that concern them.

    Every method of a store becomes a function from the store's state to
    the new state and the status string the method returns.  A store's
    state is what the object holds ([self.data]) together with the contents
    of its backing file, so that "the file is rewritten" is visible.

    What is taken from the Python libraries rather than from the
    repository:
    - [csv.DictWriter] and [csv.DictReader] over the fixed five-column
      header: a file is the list of its data lines, a data line has the
      five fields as text.  Writing renders every value as text ([str],
      with [None] and a missing key as the empty text); reading yields
      text for every field.  Quoting and line ends are below this level.
    - [json.dump] and [json.load]: a file is the sequence of members of the
      top level object; loading keeps, for a repeated key, the position of
      its first member and the value of its last.
    - [str.lower] is not defined here: the stores and the application
      are stated for every function on text that does on ASCII text what
      [str.lower] does there (see [StrLower]).  A string is the text in
      UTF-8, so that equality and occurrence of one text in another are
      those of Python. *)

From Stdlib Require Import Ascii.
From stdpp Require Import base option list strings pretty gmap fin_maps.

(** ** Python values and strings *)

(** A float is kept by its [repr], the shortest literal that reads back
    to the same double: the stores never compute with a float, they keep
    it, print it and parse it back. *)
Record pyfloat := PyFloat { float_repr : string }.

Inductive pyval :=
  | PNone
  | PBool (b : bool)
  | PInt (z : Z)
  | PFloat (f : pyfloat)
  | PStr (s : string).

#[global] Instance pyfloat_eq_dec : EqDecision pyfloat.
Proof. solve_decision. Defined.

#[global] Instance pyval_eq_dec : EqDecision pyval.
Proof. solve_decision. Defined.

(** [str(v)], as the csv writer applies it to a cell ([None] is written
    as the empty cell). *)
Definition cell_text (v : pyval) : string :=
  match v with
  | PNone => ""
  | PBool true => "True"
  | PBool false => "False"
  | PInt z => pretty z
  | PFloat f => float_repr f
  | PStr s => s
  end.

(** [str.isascii] *)
Fixpoint is_ascii (s : string) : bool :=
  match s with
  | EmptyString => true
  | String c s' => Nat.ltb (nat_of_ascii c) 128 && is_ascii s'
  end.

(** What [str.lower] does to ASCII text: A to Z become a to z and
    nothing else changes. *)
Definition ascii_lower_char (c : ascii) : ascii :=
  let n := nat_of_ascii c in
  if Nat.leb 65 n && Nat.leb n 90 then ascii_of_nat (n + 32) else c.

Fixpoint ascii_lower (s : string) : string :=
  match s with
  | EmptyString => EmptyString
  | String c s' => String (ascii_lower_char c) (ascii_lower s')
  end.

(** [str.lower], taken from Python as it is: it folds every cased letter
    of Unicode, which is not written out here.  All that is used of it
    is that it is a function on text and what it does on ASCII text, so
    what is proved for every [StrLower] holds of [str.lower] on all
    titles, accented ones included. *)
Class StrLower := {
  lower : string → string;
  lower_on_ascii : ∀ s, is_ascii s = true → lower s = ascii_lower s;
}.

(** The instance on which the examples are evaluated; their titles are
    all ASCII text, where it is [str.lower].  Beyond ASCII it is not:
    nothing general is stated of it. *)
#[global] Instance ascii_examples : StrLower := {|
  lower := ascii_lower;
  lower_on_ascii := λ s _, eq_refl;
|}.

(** [needle in hay] on two [str]: [needle] occurs in [hay] as a contiguous
    run of characters. *)
Fixpoint str_in (needle hay : string) : bool :=
  String.prefix needle hay ||
  match hay with
  | EmptyString => false
  | String _ hay' => str_in needle hay'
  end.

(** ** Python's [dict]: insertion ordered, one entry per key *)

Section dict.
Context {V : Type}.

Definition dict := list (string * V).

Definition dict_keys (d : dict) : list string := d.*1.

(** [d[k]] *)
Fixpoint dict_get (k : string) (d : dict) : option V :=
  match d with
  | [] => None
  | (k', v) :: d' => if decide (k = k') then Some v else dict_get k d'
  end.

(** [k in d] *)
Definition dict_mem (k : string) (d : dict) : bool :=
  bool_decide (k ∈ dict_keys d).

(** [d[k] = v]: a present key keeps its place, a new one goes last. *)
Fixpoint dict_set (k : string) (v : V) (d : dict) : dict :=
  match d with
  | [] => [(k, v)]
  | (k', v') :: d' =>
      if decide (k = k') then (k', v) :: d' else (k', v') :: dict_set k v d'
  end.

(** [del d[k]] *)
Fixpoint dict_del (k : string) (d : dict) : dict :=
  match d with
  | [] => []
  | (k', v') :: d' =>
      if decide (k = k') then d' else (k', v') :: dict_del k d'
  end.
End dict.

Arguments dict : clear implicits.

(** [list.remove(x)]: drops the first element equal to [x]. *)
Fixpoint list_remove {A} `{EqDecision A} (x : A) (l : list A) : list A :=
  match l with
  | [] => []
  | y :: l' => if decide (x = y) then l' else y :: list_remove x l'
  end.

(** The three mutating commands of the menu ([execute_command] of
    [movie_app.py], entries 2, 3 and 4), each passed on to the store. *)
Inductive command :=
  | Add (t : string) (y r p : pyval)
  | Delete (t : string)
  | Update (t n : string).

(** Modelled from the spec: the storage capability contract, class
    [IStorage] of [istorage.py], which both stores import and which is
    not among the sources: the four operations any store exposes, the
    listing being of the store's own kind. *)
Class IStorage (S L : Type) := {
  i_list_movies : S → L;
  i_add_movie : string → pyval → pyval → pyval → S → S * string;
  i_delete_movie : string → S → S * string;
  i_update_movie : string → string → S → S * string;
}.
#[global] Hint Mode IStorage ! - : typeclass_instances.

(** What [MovieApp] does with a command, on whichever store it was
    given. *)
Definition exec {S L} `{!IStorage S L} (c : command) (st : S) : S * string :=
  match c with
  | Add t y r p => i_add_movie t y r p st
  | Delete t => i_delete_movie t st
  | Update t n => i_update_movie t n st
  end.

(** A session: the commands in turn, on the store they leave behind. *)
Definition run {S L} `{!IStorage S L} (cs : list command) (st : S) : S :=
  foldl (λ s c, (exec c s).1) st cs.

(** ** The delimited-text store, [storage_csv.py] *)

Module StorageCsv.

(** An element of [self.data]: a dict with the keys [title], [year],
    [rating], [poster], and [notes] once the row came from the file or
    was annotated ([add_movie] builds it without). *)
Record row := Row {
  title : string;
  year : pyval;
  rating : pyval;
  poster : pyval;
  notes : option pyval;
}.

#[global] Instance row_eq_dec : EqDecision row.
Proof. solve_decision. Defined.

(** A data line of the file, under the header
    [title,year,rating,poster,notes]. *)
Record line := Line {
  f_title : string;
  f_year : string;
  f_rating : string;
  f_poster : string;
  f_notes : string;
}.

Record store := Store {
  data : list row;
  file : list line;
}.

(** [csv.DictReader]: one dict per line, every value a [str]. *)
Definition read_row (l : line) : row :=
  Row (f_title l) (PStr (f_year l)) (PStr (f_rating l)) (PStr (f_poster l))
      (Some (PStr (f_notes l))).

(** [csv.DictWriter.writerows]: a missing key is written as the empty
    cell, a value as its text. *)
Definition write_row (r : row) : line :=
  Line (title r) (cell_text (year r)) (cell_text (rating r))
       (cell_text (poster r)) (from_option cell_text "" (notes r)).

Definition write_file (d : list row) : list line := write_row <$> d.

(** [__init__] *)
Definition init (f : list line) : store :=
  {| data := read_row <$> f; file := f |}.

(** What [list_movies] returns: the sentinel text or the mapping. *)
Inductive listing :=
  | LStr (s : string)
  | LDict (d : gmap string (gmap string pyval)).

Definition projection (key : row) : gmap string pyval :=
  {[ "year" := year key; "rating" := rating key; "poster" := poster key ]}.

Definition dictionary_of (d : list row) : gmap string (gmap string pyval) :=
  foldl (λ dictionary key, <[title key := projection key]> dictionary) ∅ d.

Definition list_movies (st : store) : listing :=
  let dictionary := dictionary_of (data st) in
  if decide (dictionary = ∅) then LStr "Empty Database..."
  else LDict dictionary.

(** [title in movie_data], on whichever of the two [list_movies] gave. *)
Definition contains (t : string) (movie_data : listing) : bool :=
  match movie_data with
  | LStr s => str_in t s
  | LDict d => bool_decide (is_Some (d !! t))
  end.

Definition add_movie (t : string) (y r p : pyval) (st : store)
  : store * string :=
  let movie_data := list_movies st in
  if contains t movie_data then (st, "Movie already exists")
  else
    let movie := Row t y r p None in
    let data' := data st ++ [movie] in
    ({| data := data'; file := write_file data' |},
     t +:+ " added to the database").

(** The loop stops at the first row of title [t] and removes it with
    [self.data.remove(movie)], which drops the first row equal to
    [movie]: the rows before it have another title, so it is that row. *)
Definition delete_movie (t : string) (st : store) : store * string :=
  match find (λ movie, bool_decide (t = title movie)) (data st) with
  | Some movie =>
      let data' := list_remove movie (data st) in
      ({| data := data'; file := write_file data' |},
       t +:+ " has been deleted from the database")
  | None => (st, t +:+ " does not exist in the database")
  end.

(** [movie['notes'] = notes] on each row of title [t]. *)
Definition set_notes (t n : string) (movie : row) : row :=
  if decide (t = title movie)
  then Row (title movie) (year movie) (rating movie) (poster movie)
           (Some (PStr n))
  else movie.

Definition update_movie (t n : string) (st : store) : store * string :=
  let data' := set_notes t n <$> data st in
  let st' := {| data := data'; file := write_file data' |} in
  if existsb (λ movie, bool_decide (title movie = t)) data'
  then (st', t +:+ " has been updated")
  else (st', t +:+ " does not exist").

(** The titles of the working set, in order. *)
Definition titles (st : store) : list string := title <$> data st.

(** The record set a listing stands for; the sentinel stands for none. *)
Definition records (l : listing) : gmap string (gmap string pyval) :=
  match l with
  | LStr _ => ∅
  | LDict d => d
  end.

(** A listing with every value replaced by its text. *)
Definition text_of (v : gmap string pyval) : gmap string pyval :=
  (λ x, PStr (cell_text x)) <$> v.

Definition as_text (l : listing) : listing :=
  match l with
  | LStr s => LStr s
  | LDict d => LDict (text_of <$> d)
  end.

(** The file holds what the working set writes. *)
Definition synced (st : store) : Prop := file st = write_file (data st).

(** A row whose year, rating and poster are all [str]. *)
Definition textual (r : row) : Prop :=
  ∃ y x p, year r = PStr y ∧ rating r = PStr x ∧ poster r = PStr p.

End StorageCsv.

#[global] Instance csv_storage : IStorage StorageCsv.store StorageCsv.listing := {
  i_list_movies := StorageCsv.list_movies;
  i_add_movie := StorageCsv.add_movie;
  i_delete_movie := StorageCsv.delete_movie;
  i_update_movie := StorageCsv.update_movie;
}.

(** ** The structured-document store, [storage_json.py] *)

Module StorageJson.

(** The attributes of one movie: [year], [rating], [image-url] and,
    once annotated, [note]. *)
Abbreviation attrs := (gmap string pyval).

Record store := Store {
  data : dict attrs;
  file : list (string * attrs);
}.

(** [json.load] on the members of the top level object, in file
    order. *)
Definition json_load (members : list (string * attrs)) : dict attrs :=
  foldl (λ d member, dict_set member.1 member.2 d) [] members.

(** [json.dump]: the members in the order of the dict. *)
Definition json_dump (d : dict attrs) : list (string * attrs) := d.

(** [__init__] *)
Definition init (f : list (string * attrs)) : store :=
  {| data := json_load f; file := f |}.

Definition list_movies (st : store) : dict attrs := data st.

Definition add_movie (t : string) (y r p : pyval) (st : store)
  : store * string :=
  if dict_mem t (data st) then (st, "Movie already exists")
  else
    let data' :=
      dict_set t {[ "year" := y; "rating" := r; "image-url" := p ]}
               (data st) in
    ({| data := data'; file := json_dump data' |},
     t +:+ " has been added to the database").

(** The loop returns at the first title that matches, right after
    [del self.data[movie_title]]. *)
Definition delete_movie {L : StrLower} (t : string) (st : store)
  : store * string :=
  match find (λ movie_title, bool_decide (lower t = lower movie_title))
             (dict_keys (data st)) with
  | Some movie_title =>
      let data' := dict_del movie_title (data st) in
      ({| data := data'; file := json_dump data' |},
       t +:+ " has been deleted from the database")
  | None => (st, t +:+ " does not exist in the database")
  end.

(** The test of the loop of [update_movie] on one item. *)
Definition annotable {L : StrLower} (t : string) (item : string * attrs)
  : bool :=
  bool_decide (lower t = lower item.1)
  && bool_decide (is_Some (item.2 !! "image-url")).

(** [values] is the dict [self.data[movie_title]], so the note goes
    into the entry the loop stands on, which keeps its place. *)
Definition update_movie {L : StrLower} (t n : string) (st : store)
  : store * string :=
  match find (annotable t) (data st) with
  | Some (movie_title, values) =>
      let data' :=
        dict_set movie_title (<["note" := PStr n]> values) (data st) in
      ({| data := data'; file := json_dump data' |},
       "Note added to the movie '" +:+ movie_title
       +:+ "' successfully. Now try to hover over the movie")
  | None =>
      (st, "Movie does not exist or does not have an 'image-url' field.")
  end.

(** The file parses to the document in memory, whose keys are distinct. *)
Definition synced (st : store) : Prop :=
  json_load (file st) = data st ∧ NoDup (dict_keys (data st)).

End StorageJson.

#[global] Instance json_storage {L : StrLower}
  : IStorage StorageJson.store (dict (gmap string pyval)) := {
  i_list_movies := StorageJson.list_movies;
  i_add_movie := StorageJson.add_movie;
  i_delete_movie := StorageJson.delete_movie;
  i_update_movie := StorageJson.update_movie;
}.

(** ** The application, [movie_app.py] *)

(** The commands of [MovieApp] that read the store: they take what
    [self._storage.list_movies()] returned, a Python object that is a
    [str] or a [dict], and either return or raise. *)
Module MovieApp.

Inductive pyobj :=
  | OStr (s : string)
  | ODict (d : dict (gmap string pyval)).

Inductive exn := AttributeError | KeyError | IndexError.

Inductive outcome (A : Type) :=
  | Raise (e : exn)
  | Return (a : A).
Arguments Raise {A} e.
Arguments Return {A} a.

#[global] Instance outcome_ret : MRet outcome := λ A a, Return a.
#[global] Instance outcome_bind : MBind outcome := λ A B f m,
  match m with
  | Raise e => Raise e
  | Return a => f a
  end.

(** [StorageCsv.list_movies], the dict kept in its order: an assignment
    to a title that is there keeps its place. *)
Definition csv_items (d : list StorageCsv.row) : dict (gmap string pyval) :=
  foldl (λ dictionary key,
           dict_set (StorageCsv.title key) (StorageCsv.projection key)
                    dictionary) [] d.

Definition csv_list_movies (st : StorageCsv.store) : pyobj :=
  match csv_items (StorageCsv.data st) with
  | [] => OStr "Empty Database..."
  | dictionary => ODict dictionary
  end.

(** [StorageJson.list_movies] *)
Definition json_list_movies (st : StorageJson.store) : pyobj :=
  ODict (StorageJson.list_movies st).

(** [movies.items()], and likewise [.keys()] and [.values()]: a [str]
    has none of them. *)
Definition items (movies : pyobj) : outcome (dict (gmap string pyval)) :=
  match movies with
  | OStr _ => Raise AttributeError
  | ODict d => Return d
  end.

(** [len(movies)] *)
Definition len (movies : pyobj) : nat :=
  match movies with
  | OStr s => String.length s
  | ODict d => length d
  end.

(** [info[k]] *)
Definition getitem (k : string) (info : gmap string pyval) : outcome pyval :=
  match info !! k with
  | Some v => Return v
  | None => Raise KeyError
  end.

(** [str(v)], as an f-string prints a value. *)
Definition py_str (v : pyval) : string :=
  match v with
  | PNone => "None"
  | PBool true => "True"
  | PBool false => "False"
  | PInt z => pretty z
  | PFloat f => float_repr f
  | PStr s => s
  end.

(** [if v:] *)
Definition truthy (v : pyval) : bool :=
  match v with
  | PNone => false
  | PBool b => b
  | PInt z => negb (Z.eqb z 0)
  | PFloat f =>
      negb (String.eqb (float_repr f) "0.0" || String.eqb (float_repr f) "-0.0")
  | PStr s => negb (String.eqb s "")
  end.

(** The characters a string literal of this file cannot hold. *)
Definition nl : string := String "010"%char "".
Definition dq : string := String "034"%char "".
Definition quoted (s : string) : string := dq +:+ s +:+ dq.

Fixpoint list_movies_loop (movies_list : list (gmap string pyval))
    (its : dict (gmap string pyval)) : outcome (list (gmap string pyval)) :=
  match its with
  | [] => Return movies_list
  | (title, info) :: rest =>
      rating ← getitem "rating" info;
      year ← getitem "year" info;
      let movie_info : gmap string pyval :=
        {[ "Title" := PStr title; "Rating" := rating; "Year" := year ]} in
      list_movies_loop (movies_list ++ [movie_info]) rest
  end.

Definition _command_list_movies (movies : pyobj)
  : outcome (list (gmap string pyval)) :=
  its ← items movies;
  list_movies_loop [] its.

Fixpoint print_movies_loop (movie_result : string)
    (movies : list (gmap string pyval)) : outcome string :=
  match movies with
  | [] => Return movie_result
  | movie :: rest =>
      title ← getitem "Title" movie;
      let movie_result := movie_result +:+ "Title: " +:+ py_str title +:+ nl in
      rating ← getitem "Rating" movie;
      let movie_result :=
        movie_result +:+ "Rating: " +:+ py_str rating +:+ nl in
      year ← getitem "Year" movie;
      let movie_result :=
        movie_result +:+ "Year: " +:+ py_str year +:+ nl +:+ nl in
      print_movies_loop movie_result rest
  end.

(** [execute_command], the branch of the command "1". *)
Definition execute_command_1 (movies : pyobj) : outcome string :=
  movies ← _command_list_movies movies;
  match movies with
  | [] => Return "No movies in the database."
  | _ => print_movies_loop "" movies
  end.

(** [randbelow n] stands for the index [random.choice] draws in a
    sequence of length [n]. *)
Definition _command_random_movie (randbelow : nat → nat) (movie_data : pyobj)
  : outcome (option string) :=
  if Nat.eqb (len movie_data) 0 then Return None
  else
    its ← items movie_data;
    let keys := dict_keys its in
    match keys !! randbelow (length keys) with
    | Some random_title =>
        Return (Some ("The movie for the night is '" +:+ random_title +:+ "'"))
    | None => Raise IndexError
    end.

Definition _command_search_movie {L : StrLower} (keyword : string)
    (movie_data : pyobj) : outcome (list string) :=
  its ← items movie_data;
  Return (List.filter (λ title, str_in (lower keyword) (lower title))
                      (dict_keys its)).

(** What one turn of the loop of [_command_serialise_website] adds to
    [output]. *)
Definition movie_block (movie_title : string) (movie_info : gmap string pyval)
  : outcome string :=
  match movie_info !! "image-url" with
  | None => Return ""
  | Some image_url =>
      if truthy image_url then
        let output := "<div class=" +:+ quoted "movie" +:+ ">" +:+ nl in
        let output :=
          output +:+ "<img class=" +:+ quoted "movie-poster"
          +:+ " src=" +:+ quoted (py_str image_url)
          +:+ " alt=" +:+ quoted movie_title +:+ ">" +:+ nl in
        let output :=
          output +:+ "<h2 class=" +:+ quoted "movie-title" +:+ ">"
          +:+ movie_title +:+ "</h2>" +:+ nl in
        let output :=
          output +:+ "<div class=" +:+ quoted "movie-info" +:+ ">" +:+ nl in
        year ← getitem "year" movie_info;
        let output :=
          output +:+ "<p class=" +:+ quoted "movie-year" +:+ ">Year: "
          +:+ py_str year +:+ "</p>" +:+ nl in
        let output :=
          match movie_info !! "note" with
          | Some note =>
              output +:+ "<p class=" +:+ quoted "movie-note" +:+ ">"
              +:+ py_str note +:+ "</p>" +:+ nl
          | None => output
          end in
        let output := output +:+ "</div>" +:+ nl in
        Return (output +:+ "</div>" +:+ nl)
      else Return ""
  end.

Fixpoint serialise_loop (output : string) (its : dict (gmap string pyval))
  : outcome string :=
  match its with
  | [] => Return output
  | (movie_title, movie_info) :: rest =>
      block ← movie_block movie_title movie_info;
      serialise_loop (output +:+ block) rest
  end.

Definition _command_serialise_website (movie_data : pyobj) : outcome string :=
  its ← items movie_data;
  serialise_loop "" its.

(** Every record has what [add_movie] of the structured-document store
    gives it. *)
Definition complete (d : dict (gmap string pyval)) : Prop :=
  ∀ k v, (k, v) ∈ d →
    is_Some (v !! "year") ∧ is_Some (v !! "rating") ∧
    is_Some (v !! "image-url").

End MovieApp.

(** * Properties *)

(** ** Strings *)

Lemma append_cons c s1 s2 : String c s1 +:+ s2 = String c (s1 +:+ s2).
Proof. reflexivity. Qed.

Lemma append_length s1 s2 :
  String.length (s1 +:+ s2) = String.length s1 + String.length s2.
Proof.
  induction s1 as [|c s1 IH]; [reflexivity|].
  rewrite append_cons. cbn [String.length]. by rewrite IH.
Qed.

Lemma prefix_append p s :
  String.prefix p s = true ↔ ∃ post, s = p +:+ post.
Proof.
  revert s. induction p as [|c p IH]; intros s.
  - split; [intros _; by exists s|intros _; by destruct s].
  - destruct s as [|c' s]; cbn [String.prefix].
    + split; [done|]. intros [post Hpost]. by rewrite append_cons in Hpost.
    + destruct (ascii_dec c c') as [->|Hne].
      * rewrite IH. split; intros [post Hpost]; exists post.
        -- by rewrite append_cons, Hpost.
        -- rewrite append_cons in Hpost. by simplify_eq.
      * split; [done|]. intros [post Hpost].
        rewrite append_cons in Hpost. by simplify_eq.
Qed.

(** [str_in] is Python's substring test. *)
Lemma str_in_spec needle hay :
  str_in needle hay = true ↔ ∃ pre post, hay = pre +:+ needle +:+ post.
Proof.
  induction hay as [|c hay IH]; cbn [str_in].
  - rewrite orb_false_r, prefix_append. split.
    + intros [post ->]. by exists "", post.
    + intros ([|c pre] & post & Hp); [by exists post|].
      by rewrite append_cons in Hp.
  - rewrite orb_true_iff, prefix_append, IH. split.
    + intros [[post Hp]|(pre & post & ->)].
      * by exists "", post.
      * by exists (String c pre), post.
    + intros ([|c' pre] & post & Hp).
      * left. by exists post.
      * right. rewrite append_cons in Hp. simplify_eq. by exists pre, post.
Qed.

Lemma longer_suffix_ne (msg t suffix : string) :
  String.length msg < String.length suffix → msg ≠ t +:+ suffix.
Proof. intros Hlen ->. rewrite append_length in Hlen. lia. Qed.

(** ** Scans *)

Lemma find_first {A} (f : A → bool) (l : list A) x :
  find f l = Some x ↔
  ∃ l1 l2, l = l1 ++ x :: l2 ∧ f x = true ∧ ∀ y, y ∈ l1 → f y = false.
Proof.
  induction l as [|a l IH]; cbn [find].
  - split; [done|]. intros (l1 & l2 & Hl & _). by destruct l1.
  - destruct (f a) eqn:Ha.
    + split.
      * intros [= ->]. exists [], l. split_and!; [done..|].
        intros y Hy. by apply elem_of_nil in Hy.
      * intros ([|b l1] & l2 & Hl & Hx & Hl1); simplify_eq/=; [done|].
        rewrite Hl1 in Ha; [done|]. apply list_elem_of_here.
    + rewrite IH. split.
      * intros (l1 & l2 & -> & Hx & Hl1). exists (a :: l1), l2.
        split_and!; [done..|]. intros y [->|Hy]%elem_of_cons; auto.
      * intros ([|b l1] & l2 & Hl & Hx & Hl1); simplify_eq/=; [congruence|].
        exists l1, l2. split_and!; [done..|].
        intros y Hy. apply Hl1. by apply list_elem_of_further.
Qed.

Lemma find_nothing {A} (f : A → bool) (l : list A) :
  find f l = None ↔ ∀ y, y ∈ l → f y = false.
Proof.
  induction l as [|a l IH]; cbn [find].
  - split; [|done]. intros _ y Hy. by apply elem_of_nil in Hy.
  - destruct (f a) eqn:Ha.
    + split; [done|]. intros Hall. rewrite Hall in Ha; [done|].
      apply list_elem_of_here.
    + rewrite IH. split.
      * intros Hall y [->|Hy]%elem_of_cons; auto.
      * intros Hall y Hy. apply Hall. by apply list_elem_of_further.
Qed.

(** ** The ordered dict *)

Section dict_facts.
Context {V : Type}.
Implicit Types (d : dict V) (k : string) (v : V).

Lemma dict_mem_true k d : dict_mem k d = true ↔ k ∈ dict_keys d.
Proof. unfold dict_mem. by rewrite bool_decide_eq_true. Qed.

Lemma dict_mem_false k d : dict_mem k d = false ↔ k ∉ dict_keys d.
Proof. unfold dict_mem. by rewrite bool_decide_eq_false. Qed.

Lemma dict_set_fresh k v d : k ∉ dict_keys d → dict_set k v d = d ++ [(k, v)].
Proof.
  induction d as [|[k' v'] d IH]; [done|].
  intros [Hne Hd]%not_elem_of_cons. cbn [dict_set].
  rewrite decide_False by done. by rewrite IH.
Qed.

Lemma dict_set_at k v v' d1 d2 :
  k ∉ dict_keys d1 →
  dict_set k v' (d1 ++ (k, v) :: d2) = d1 ++ (k, v') :: d2.
Proof.
  induction d1 as [|[k1 v1] d1 IH]; cbn [dict_set app].
  - intros _. by rewrite decide_True.
  - intros [Hne Hd]%not_elem_of_cons.
    rewrite decide_False by done. by rewrite IH.
Qed.

Lemma dict_del_at k v d1 d2 :
  k ∉ dict_keys d1 → dict_del k (d1 ++ (k, v) :: d2) = d1 ++ d2.
Proof.
  induction d1 as [|[k1 v1] d1 IH]; cbn [dict_del app].
  - intros _. by rewrite decide_True.
  - intros [Hne Hd]%not_elem_of_cons.
    rewrite decide_False by done. by rewrite IH.
Qed.

Lemma dict_keys_set k v d :
  dict_keys (dict_set k v d) =
  if decide (k ∈ dict_keys d) then dict_keys d else dict_keys d ++ [k].
Proof.
  induction d as [|[k' v'] d IH]; [done|]. cbn [dict_set].
  destruct (decide (k = k')) as [->|Hne].
  - rewrite decide_True; [done|]. apply list_elem_of_here.
  - unfold dict_keys in *. cbn [fmap list_fmap fst]. rewrite IH.
    destruct (decide (k ∈ d.*1)) as [Hin|Hnin].
    + rewrite decide_True; [done|]. by apply list_elem_of_further.
    + rewrite decide_False; [done|]. by apply not_elem_of_cons.
Qed.

Lemma dict_set_NoDup k v d :
  NoDup (dict_keys d) → NoDup (dict_keys (dict_set k v d)).
Proof.
  intros Hd. rewrite dict_keys_set. case_decide; [done|].
  apply NoDup_app. split_and!; [done| |apply NoDup_singleton].
  intros x Hx ->%list_elem_of_singleton. done.
Qed.

Lemma dict_keys_del_subset k d x :
  x ∈ dict_keys (dict_del k d) → x ∈ dict_keys d.
Proof.
  induction d as [|[k' v'] d IH]; [done|]. cbn [dict_del].
  case_decide.
  - intros Hx. by apply list_elem_of_further.
  - unfold dict_keys in *. cbn [fmap list_fmap fst].
    intros [->|Hx]%elem_of_cons; [apply list_elem_of_here|].
    apply list_elem_of_further. auto.
Qed.

Lemma dict_del_NoDup k d :
  NoDup (dict_keys d) → NoDup (dict_keys (dict_del k d)).
Proof.
  induction d as [|[k' v'] d IH]; [done|]. cbn [dict_del].
  unfold dict_keys in *. cbn [fmap list_fmap fst].
  intros [Hk' Hd]%NoDup_cons. case_decide; [done|].
  cbn [fmap list_fmap fst]. apply NoDup_cons. split; [|auto].
  intros Hin. by apply Hk', (dict_keys_del_subset k).
Qed.



Lemma dict_get_at k v d1 d2 :
  k ∉ dict_keys d1 → dict_get k (d1 ++ (k, v) :: d2) = Some v.
Proof.
  induction d1 as [|[k1 v1] d1 IH]; cbn [dict_get app].
  - intros _. by rewrite decide_True.
  - intros [Hne Hd]%not_elem_of_cons. rewrite decide_False by done. auto.
Qed.


(** Loading builds the dict member by member. *)
Lemma foldl_dict_set_NoDup (l : list (string * V)) d :
  NoDup (dict_keys d) →
  NoDup (dict_keys (foldl (λ acc m, dict_set m.1 m.2 acc) d l)).
Proof.
  revert d. induction l as [|[k v] l IH]; intros d Hd; [done|].
  cbn [foldl]. by apply IH, dict_set_NoDup.
Qed.

Lemma foldl_dict_set_fresh (l : list (string * V)) d :
  NoDup (dict_keys (d ++ l)) →
  foldl (λ acc m, dict_set m.1 m.2 acc) d l = d ++ l.
Proof.
  revert d. induction l as [|[k v] l IH]; intros d Hd; cbn [foldl].
  - by rewrite app_nil_r.
  - cbn [fst snd]. rewrite dict_set_fresh.
    + rewrite IH; rewrite <-(assoc_L (++)); done.
    + unfold dict_keys in Hd. rewrite fmap_app in Hd.
      apply NoDup_app in Hd as (_ & Hd & _).
      intros Hin. apply (Hd k Hin). apply list_elem_of_here.
Qed.
End dict_facts.

(** ** The delimited-text store *)

Module CsvFacts.
Import StorageCsv.

Implicit Types (d : list row) (st : store) (t k n : string).

Lemma dictionary_of_snoc d r :
  dictionary_of (d ++ [r]) = <[title r := projection r]> (dictionary_of d).
Proof. unfold dictionary_of. by rewrite foldl_app. Qed.

Lemma dictionary_of_empty d : dictionary_of d = ∅ ↔ d = [].
Proof.
  destruct d as [|r d _] using rev_ind; [done|].
  rewrite dictionary_of_snoc. split.
  - intros H. by apply insert_non_empty in H.
  - intros H. by apply app_nil in H as [_ ?].
Qed.

Lemma list_movies_nil st :
  data st = [] → list_movies st = LStr "Empty Database...".
Proof.
  intros Hd. unfold list_movies. rewrite decide_True; [done|].
  by apply dictionary_of_empty.
Qed.

Lemma list_movies_cons st :
  data st ≠ [] → list_movies st = LDict (dictionary_of (data st)).
Proof.
  intros Hd. unfold list_movies. rewrite decide_False; [done|].
  by rewrite dictionary_of_empty.
Qed.

(** The mapping lists exactly the titles of the working set. *)
Lemma dictionary_of_titles d k :
  is_Some (dictionary_of d !! k) ↔ k ∈ title <$> d.
Proof.
  induction d as [|r d IH] using rev_ind.
  - unfold dictionary_of; cbn. rewrite lookup_empty, is_Some_alt.
    split; [done|]. intros H. by apply elem_of_nil in H.
  - rewrite dictionary_of_snoc, fmap_app, elem_of_app, <-IH.
    cbn [fmap list_fmap]. rewrite list_elem_of_singleton.
    destruct (decide (title r = k)) as [->|Hne].
    + rewrite lookup_insert_eq. split; [by right|by eauto].
    + rewrite lookup_insert_ne by done. split; [by left|].
      by intros [?|?].
Qed.

(** Every listed value is the projection of a row of that title. *)
Lemma dictionary_of_row d k v :
  dictionary_of d !! k = Some v →
  ∃ r, r ∈ d ∧ title r = k ∧ v = projection r.
Proof.
  induction d as [|r d IH] using rev_ind.
  - unfold dictionary_of; cbn. by rewrite lookup_empty.
  - rewrite dictionary_of_snoc.
    destruct (decide (title r = k)) as [<-|Hne].
    + rewrite lookup_insert_eq. intros [= <-]. exists r.
      split_and!; [|done..]. apply elem_of_app. right. apply list_elem_of_here.
    + rewrite lookup_insert_ne by done. intros (r' & Hr' & Ht & Hv)%IH.
      exists r'. split_and!; [|done..]. apply elem_of_app. by left.
Qed.

(** A change of the rows that keeps titles and uses [h] on what is
    listed shows as [h] on the mapping. *)
Lemma dictionary_of_fmap (g : row → row)
    (h : gmap string pyval → gmap string pyval) d :
  (∀ r, title (g r) = title r) →
  (∀ r, projection (g r) = h (projection r)) →
  dictionary_of (g <$> d) = h <$> dictionary_of d.
Proof.
  intros Ht Hp. induction d as [|r d IH] using rev_ind.
  - unfold dictionary_of; cbn. by rewrite fmap_empty.
  - rewrite fmap_app. cbn [fmap list_fmap].
    rewrite !dictionary_of_snoc, fmap_insert, IH, Ht, Hp. done.
Qed.

Lemma dictionary_of_set_notes t n d :
  dictionary_of (set_notes t n <$> d) = dictionary_of d.
Proof.
  rewrite (dictionary_of_fmap _ id).
  - apply map_fmap_id.
  - intros r. unfold set_notes. by case_decide.
  - intros r. unfold set_notes. by case_decide.
Qed.

Lemma dictionary_of_filter t d :
  dictionary_of (filter (λ r, title r ≠ t) d) = delete t (dictionary_of d).
Proof.
  induction d as [|r d IH] using rev_ind.
  - unfold dictionary_of; cbn. by rewrite delete_empty.
  - rewrite filter_app, dictionary_of_snoc.
    destruct (decide (title r = t)) as [<-|Hne].
    + rewrite filter_cons_False by naive_solver.
      rewrite filter_nil, app_nil_r, IH. by rewrite delete_insert_eq.
    + rewrite filter_cons_True by done.
      rewrite filter_nil, dictionary_of_snoc, IH.
      by rewrite delete_insert_ne.
Qed.

Lemma filter_other_titles t d :
  t ∉ title <$> d → filter (λ r, title r ≠ t) d = d.
Proof.
  induction d as [|r d IH]; [done|]. cbn [fmap list_fmap].
  intros [Hne Hd]%not_elem_of_cons.
  rewrite filter_cons_True by done. by rewrite IH.
Qed.

(** With distinct titles, the row that [delete_movie] finds and removes
    is the only row of that title. *)
Lemma list_remove_found t d movie :
  NoDup (title <$> d) →
  find (λ m, bool_decide (t = title m)) d = Some movie →
  list_remove movie d = filter (λ r, title r ≠ t) d.
Proof.
  induction d as [|a d IH]; [done|]. cbn [fmap list_fmap find].
  intros [Ha Hd]%NoDup_cons. case_bool_decide as Hta.
  - intros [= <-]. cbn [list_remove]. rewrite decide_True by done.
    rewrite filter_cons_False by naive_solver.
    symmetry. apply filter_other_titles. by rewrite Hta.
  - intros Hfind. cbn [list_remove].
    assert (t = title movie) as Htm.
    { apply find_first in Hfind as (_ & _ & _ & Hm & _).
      by apply bool_decide_eq_true in Hm. }
    rewrite decide_False by (intros ->; done).
    rewrite filter_cons_True by done. by rewrite IH.
Qed.

Lemma find_title_None t d :
  find (λ m, bool_decide (t = title m)) d = None ↔ t ∉ title <$> d.
Proof.
  rewrite find_nothing, list_elem_of_fmap. split.
  - intros Hall (r & -> & Hr). apply Hall in Hr.
    by apply bool_decide_eq_false in Hr.
  - intros Hno r Hr. apply bool_decide_eq_false. intros ->.
    apply Hno. by exists r.
Qed.

Lemma existsb_title t d :
  existsb (λ m, bool_decide (title m = t)) d = true ↔ t ∈ title <$> d.
Proof.
  rewrite existsb_exists, list_elem_of_fmap. split.
  - intros (r & Hr%list_elem_of_In & Ht%bool_decide_eq_true). by exists r.
  - intros (r & -> & Hr). exists r. split; [by apply list_elem_of_In|].
    by apply bool_decide_eq_true.
Qed.

Lemma set_notes_absent t n d : t ∉ title <$> d → set_notes t n <$> d = d.
Proof.
  induction d as [|r d IH]; [done|]. cbn [fmap list_fmap].
  intros [Hne Hd]%not_elem_of_cons. rewrite IH by done.
  unfold set_notes. by rewrite decide_False.
Qed.

Lemma titles_set_notes t n d : title <$> (set_notes t n <$> d) = title <$> d.
Proof.
  rewrite <-list_fmap_compose. apply list_fmap_ext.
  intros _ r _. cbn. unfold set_notes. by case_decide.
Qed.

(** Reading back what was written gives each value as text. *)
Lemma write_read_row l : write_row (read_row l) = l.
Proof. by destruct l. Qed.

Lemma write_read_file f : write_file (read_row <$> f) = f.
Proof.
  unfold write_file. rewrite <-list_fmap_compose.
  rewrite <-(list_fmap_id f) at 2. apply list_fmap_ext.
  intros _ l _. apply write_read_row.
Qed.

Lemma projection_read_write r :
  projection (read_row (write_row r)) = text_of (projection r).
Proof.
  unfold projection, text_of. cbn.
  by rewrite !fmap_insert, map_fmap_singleton.
Qed.

Lemma dictionary_of_reload d :
  dictionary_of (read_row <$> write_file d) = text_of <$> dictionary_of d.
Proof.
  unfold write_file. rewrite <-list_fmap_compose.
  apply dictionary_of_fmap; [done|]. intros r. apply projection_read_write.
Qed.

Lemma csv_list_movies_reload st :
  synced st → list_movies (init (file st)) = as_text (list_movies st).
Proof.
  unfold synced. intros ->. destruct (data st) as [|r d] eqn:Hd.
  - rewrite (list_movies_nil st) by done. done.
  - rewrite (list_movies_cons st) by (by rewrite Hd).
    rewrite list_movies_cons by done. cbn [init data as_text].
    by rewrite Hd, dictionary_of_reload.
Qed.

(** Every store a session can reach has its file in step. *)
Lemma csv_synced_init f : synced (init f).
Proof. unfold synced, init; cbn. by rewrite write_read_file. Qed.

Lemma csv_synced_exec c st : synced st → synced (exec c st).1.
Proof.
  intros Hst. destruct c as [t y r p|t|t n]; cbn.
  - unfold add_movie. by destruct (contains _ _).
  - unfold delete_movie. by destruct (find _ _).
  - unfold update_movie. by destruct (existsb _ _).
Qed.

Lemma csv_synced_run cs st : synced st → synced (run cs st).
Proof.
  revert st. induction cs as [|c cs IH]; intros st Hst; [done|].
  apply IH. by apply csv_synced_exec.
Qed.

Lemma records_list_movies st :
  records (list_movies st) = dictionary_of (data st).
Proof. unfold list_movies. by case_decide. Qed.

(** [add_movie] *)
Lemma add_movie_refused t y r p st :
  contains t (list_movies st) = true →
  add_movie t y r p st = (st, "Movie already exists").
Proof. intros H. unfold add_movie. by rewrite H. Qed.

Lemma add_movie_done t y r p st :
  contains t (list_movies st) = false →
  add_movie t y r p st =
    (let data' := data st ++ [Row t y r p None] in
     {| data := data'; file := write_file data' |},
     t +:+ " added to the database").
Proof. intros H. unfold add_movie. by rewrite H. Qed.

Lemma add_movie_success_inv t y r p st :
  (add_movie t y r p st).2 = t +:+ " added to the database" →
  contains t (list_movies st) = false.
Proof.
  unfold add_movie. destruct (contains _ _); [|done]. cbn [snd].
  intros H. by apply longer_suffix_ne in H; [|cbn; lia].
Qed.

Lemma contains_listed t st :
  t ∈ titles st → contains t (list_movies st) = true.
Proof.
  intros Ht. rewrite list_movies_cons.
  - cbn [contains]. apply bool_decide_eq_true. by apply dictionary_of_titles.
  - intros Hd. unfold titles in Ht. rewrite Hd in Ht. by apply elem_of_nil in Ht.
Qed.

(** [delete_movie] *)
Lemma delete_movie_absent t st :
  t ∉ titles st →
  delete_movie t st = (st, t +:+ " does not exist in the database").
Proof.
  intros Ht. unfold delete_movie.
  by apply find_title_None in Ht as ->.
Qed.

Lemma delete_movie_present t st :
  NoDup (titles st) → t ∈ titles st →
  delete_movie t st =
    (let data' := filter (λ r, title r ≠ t) (data st) in
     {| data := data'; file := write_file data' |},
     t +:+ " has been deleted from the database").
Proof.
  intros Hnd Ht. unfold delete_movie.
  destruct (find _ _) as [movie|] eqn:Hfind.
  - by rewrite (list_remove_found t) by done.
  - by apply find_title_None in Hfind.
Qed.

(** [update_movie] *)
Lemma update_movie_absent t n st :
  t ∉ titles st →
  update_movie t n st =
    ({| data := data st; file := write_file (data st) |},
     t +:+ " does not exist").
Proof.
  intros Ht. unfold update_movie. rewrite set_notes_absent by done.
  destruct (existsb _ _) eqn:He; [|done].
  by apply existsb_title in He.
Qed.

Lemma list_movies_update t n st :
  list_movies (update_movie t n st).1 = list_movies st.
Proof.
  unfold update_movie. destruct (existsb _ _); cbn [fst];
    unfold list_movies; cbn [data]; by rewrite dictionary_of_set_notes.
Qed.

Lemma text_of_textual r : textual r → text_of (projection r) = projection r.
Proof.
  intros (y & x & p & Hy & Hx & Hp). unfold projection, text_of.
  rewrite Hy, Hx, Hp. by rewrite !fmap_insert, map_fmap_singleton.
Qed.

Lemma as_text_textual st :
  (∀ r, r ∈ data st → textual r) → as_text (list_movies st) = list_movies st.
Proof.
  intros Hall. unfold list_movies. case_decide; [done|].
  cbn [as_text]. f_equal. apply map_eq. intros k. rewrite lookup_fmap.
  destruct (dictionary_of (data st) !! k) as [v|] eqn:Hk; [|done].
  apply dictionary_of_row in Hk as (r & Hr & _ & ->). cbn.
  by rewrite text_of_textual by auto.
Qed.

Lemma update_movie_present t n st :
  t ∈ titles st →
  (update_movie t n st).2 = t +:+ " has been updated" ∧
  ∀ r, r ∈ data (update_movie t n st).1 →
       title r = t → notes r = Some (PStr n).
Proof.
  intros Ht. unfold update_movie.
  replace (existsb _ _) with true.
  - cbn [fst snd data]. split; [done|].
    intros r (r0 & -> & _)%list_elem_of_fmap. unfold set_notes.
    case_decide as Hr0; [done|]. intros Heq. by rewrite Heq in Hr0.
  - symmetry. apply existsb_title. by rewrite titles_set_notes.
Qed.

Lemma projection_fields r :
  dom (projection r) = ({[ "year"; "rating"; "poster" ]} : gset string) ∧
  projection r !! "notes" = None ∧
  projection r !! "year" = Some (year r) ∧
  projection r !! "rating" = Some (rating r) ∧
  projection r !! "poster" = Some (poster r).
Proof.
  unfold projection. split_and!; [|done..].
  rewrite !dom_insert_L, dom_singleton_L. set_solver.
Qed.

End CsvFacts.

(** ** The structured-document store *)

Module JsonFacts.
Import StorageJson.

Section with_lower.
Context {L : StrLower}.
Implicit Types (d : dict attrs) (st : store) (t k n : string) (v : attrs).

Lemma json_load_NoDup f : NoDup (dict_keys (json_load f)).
Proof. apply foldl_dict_set_NoDup, NoDup_nil_2. Qed.

Lemma json_load_dump d : NoDup (dict_keys d) → json_load (json_dump d) = d.
Proof. intros Hd. by apply (foldl_dict_set_fresh d []). Qed.

Lemma json_synced_init f : synced (init f).
Proof. split; [done|apply json_load_NoDup]. Qed.

Lemma synced_written d :
  NoDup (dict_keys d) → synced {| data := d; file := json_dump d |}.
Proof. intros Hd. split; [by apply json_load_dump|done]. Qed.

Lemma json_synced_exec c st : synced st → synced (exec c st).1.
Proof.
  intros Hst. pose proof Hst as [_ Hnd].
  destruct c as [t y r p|t|t n]; cbn.
  - unfold add_movie. destruct (dict_mem _ _); [done|].
    by apply synced_written, dict_set_NoDup.
  - unfold delete_movie. destruct (find _ _); [|done].
    by apply synced_written, dict_del_NoDup.
  - unfold update_movie. destruct (find _ _) as [[k v]|]; [|done].
    by apply synced_written, dict_set_NoDup.
Qed.

Lemma json_synced_run cs st : synced st → synced (run cs st).
Proof.
  revert st. induction cs as [|c cs IH]; intros st Hst; [done|].
  apply IH. by apply json_synced_exec.
Qed.

Lemma json_list_movies_reload st :
  synced st → list_movies (init (file st)) = list_movies st.
Proof. by intros [? _]. Qed.

(** [add_movie] *)
Lemma add_movie_fresh t y r p st :
  t ∉ dict_keys (data st) →
  add_movie t y r p st =
    (let data' :=
       data st ++ [(t, {[ "year" := y; "rating" := r; "image-url" := p ]})] in
     {| data := data'; file := data' |},
     t +:+ " has been added to the database").
Proof.
  intros Ht. unfold add_movie.
  apply dict_mem_false in Ht as Hm. rewrite Hm.
  by rewrite dict_set_fresh.
Qed.

Lemma add_movie_present t y r p st :
  t ∈ dict_keys (data st) →
  add_movie t y r p st = (st, "Movie already exists").
Proof.
  intros Ht. unfold add_movie. apply dict_mem_true in Ht. by rewrite Ht.
Qed.

(** [delete_movie] *)
Lemma delete_movie_none t st :
  (∀ k, k ∈ dict_keys (data st) → lower t ≠ lower k) →
  delete_movie t st = (st, t +:+ " does not exist in the database").
Proof.
  intros Hno. unfold delete_movie.
  replace (find _ _) with (@None string); [done|].
  symmetry. apply find_nothing. intros k Hk.
  apply bool_decide_eq_false. auto.
Qed.

Lemma delete_movie_first t st d1 k v d2 :
  data st = d1 ++ (k, v) :: d2 →
  lower t = lower k →
  (∀ k', k' ∈ dict_keys d1 → lower t ≠ lower k') →
  delete_movie t st =
    ({| data := d1 ++ d2; file := d1 ++ d2 |},
     t +:+ " has been deleted from the database").
Proof.
  intros Hd Hk Hd1. unfold delete_movie.
  replace (find _ _) with (Some k).
  - rewrite Hd, dict_del_at; [done|]. intros Hin. by apply (Hd1 k).
  - symmetry. apply find_first. exists (dict_keys d1), (dict_keys d2).
    split_and!.
    + rewrite Hd. unfold dict_keys. by rewrite fmap_app.
    + by apply bool_decide_eq_true.
    + intros k' Hk'. apply bool_decide_eq_false. auto.
Qed.

(** Either no stored title matches, or there is a first one that does. *)
Lemma first_match t d :
  (∀ k, k ∈ dict_keys d → lower t ≠ lower k) ∨
  ∃ d1 k v d2, d = d1 ++ (k, v) :: d2 ∧ lower t = lower k ∧
    ∀ k', k' ∈ dict_keys d1 → lower t ≠ lower k'.
Proof.
  induction d as [|[k v] d IH].
  - left. intros k Hk. by apply elem_of_nil in Hk.
  - destruct (decide (lower t = lower k)) as [Heq|Hne].
    + right. exists [], k, v, d. split_and!; [done..|].
      intros k' Hk'. by apply elem_of_nil in Hk'.
    + destruct IH as [Hno|(d1 & k1 & v1 & d2 & -> & Hk1 & Hd1)].
      * left. unfold dict_keys. cbn [fmap list_fmap fst].
        intros k' [->|Hk']%elem_of_cons; auto.
      * right. exists ((k, v) :: d1), k1, v1, d2. split_and!; [done..|].
        unfold dict_keys. cbn [fmap list_fmap fst].
        intros k' [->|Hk']%elem_of_cons; auto.
Qed.

(** [update_movie] *)
Lemma annotable_true t item :
  annotable t item = true ↔
  lower t = lower item.1 ∧ is_Some (item.2 !! "image-url").
Proof.
  unfold annotable.
  by rewrite andb_true_iff, !bool_decide_eq_true.
Qed.

Lemma annotable_false t item :
  annotable t item = false ↔
  (lower t = lower item.1 → item.2 !! "image-url" = None).
Proof.
  unfold annotable. rewrite andb_false_iff, !bool_decide_eq_false. split.
  - intros [Hne|Hno] Heq; [done|]. by apply eq_None_not_Some.
  - intros H. destruct (decide (lower t = lower item.1)) as [Heq|Hne].
    + right. apply eq_None_not_Some. auto.
    + by left.
Qed.

Lemma update_movie_none t n st :
  (∀ item, item ∈ data st → annotable t item = false) →
  update_movie t n st =
    (st, "Movie does not exist or does not have an 'image-url' field.").
Proof.
  intros Hno. unfold update_movie.
  replace (find _ _) with (@None (string * attrs)); [done|].
  symmetry. by apply find_nothing.
Qed.

Lemma update_movie_first t n st d1 k v d2 :
  NoDup (dict_keys (data st)) →
  data st = d1 ++ (k, v) :: d2 →
  annotable t (k, v) = true →
  (∀ item, item ∈ d1 → annotable t item = false) →
  update_movie t n st =
    (let data' := d1 ++ (k, <["note" := PStr n]> v) :: d2 in
     {| data := data'; file := data' |},
     "Note added to the movie '" +:+ k
     +:+ "' successfully. Now try to hover over the movie").
Proof.
  intros Hnd Hd Hk Hd1. unfold update_movie.
  replace (find _ _) with (Some (k, v)).
  - rewrite Hd, dict_set_at; [done|].
    rewrite Hd in Hnd. unfold dict_keys in Hnd. rewrite fmap_app in Hnd.
    apply NoDup_app in Hnd as (_ & Hnd & _).
    intros Hin. apply (Hnd k Hin). apply list_elem_of_here.
  - symmetry. apply find_first. by exists d1, d2.
Qed.

Lemma first_annotable t d :
  (∀ item, item ∈ d → annotable t item = false) ∨
  ∃ d1 k v d2, d = d1 ++ (k, v) :: d2 ∧ annotable t (k, v) = true ∧
    ∀ item, item ∈ d1 → annotable t item = false.
Proof.
  destruct (find (annotable t) d) as [[k v]|] eqn:Hfind.
  - right. apply find_first in Hfind as (d1 & d2 & ? & ? & ?).
    by exists d1, k, v, d2.
  - left. by apply find_nothing.
Qed.

End with_lower.

End JsonFacts.

(** * The claims of the specification *)

(** Goals about the members of an explicit list, case by case, with no
    more of a member evaluated than the goal asks for. *)
Ltac settle :=
  first
    [ done
    | by (intros; reflexivity)
    | by (intros; eexists)
    | by (let E := fresh in intros E; vm_compute in E)
    | by vm_compute ].

Ltac by_cases_of H :=
  match type of H with
  | ?x ∈ ?l => let l' := eval hnf in l in change (x ∈ l') in H
  end;
  first
    [ by apply elem_of_nil in H
    | apply elem_of_cons in H as [H|H];
      [ match type of H with
        | @eq string _ _ => vm_compute in H
        | ?x = ?e => let e' := eval hnf in e in change (x = e') in H
        end;
        simplify_eq; try settle
      | by_cases_of H ] ].

(** C1.  In both stores, from a state where the title [t] is absent: once
    [add_movie t y r p] has succeeded, [list_movies] holds [t] with the
    year, rating and poster that were given; adding [t] again, with any
    values, answers "Movie already exists" and leaves the store as it
    is, so the record under [t] is the one of the first call. *)
Theorem add_listed_then_refused
    (cs : StorageCsv.store) (js : StorageJson.store)
    (t : string) (y r p : pyval) :
  t ∉ StorageCsv.titles cs →
  t ∉ dict_keys (StorageJson.data js) →
  (StorageCsv.add_movie t y r p cs).2 = t +:+ " added to the database" →
  (StorageJson.add_movie t y r p js).2
    = t +:+ " has been added to the database" →
  let cs' := (StorageCsv.add_movie t y r p cs).1 in
  let js' := (StorageJson.add_movie t y r p js).1 in
  (∃ d, StorageCsv.list_movies cs' = StorageCsv.LDict d ∧
     d !! t = Some {[ "year" := y; "rating" := r; "poster" := p ]} ∧
     ∀ y' r' p',
       StorageCsv.add_movie t y' r' p' cs' = (cs', "Movie already exists")) ∧
  (dict_get t (StorageJson.list_movies js')
     = Some {[ "year" := y; "rating" := r; "image-url" := p ]} ∧
   ∀ y' r' p',
     StorageJson.add_movie t y' r' p' js' = (js', "Movie already exists")).
Proof.
  intros _ Hj Hc _ cs' js'. split.
  - apply CsvFacts.add_movie_success_inv in Hc.
    subst cs'. rewrite (CsvFacts.add_movie_done _ _ _ _ _ Hc). cbn [fst].
    set (st' := StorageCsv.Store _ _).
    assert (t ∈ StorageCsv.titles st') as Ht.
    { unfold StorageCsv.titles, st'. cbn [StorageCsv.data].
      rewrite fmap_app. apply elem_of_app. right. apply list_elem_of_here. }
    exists (StorageCsv.dictionary_of (StorageCsv.data st')). split_and!.
    + apply CsvFacts.list_movies_cons.
      unfold st'. cbn [StorageCsv.data]. by intros [_ ?]%app_nil.
    + unfold st'. cbn [StorageCsv.data].
      rewrite CsvFacts.dictionary_of_snoc. apply lookup_insert_eq.
    + intros y' r' p'.
      by apply CsvFacts.add_movie_refused, CsvFacts.contains_listed.
  - subst js'. rewrite (JsonFacts.add_movie_fresh _ _ _ _ _ Hj). cbn [fst].
    split.
    + unfold StorageJson.list_movies. cbn [StorageJson.data].
      apply dict_get_at. done.
    + intros y' r' p'. apply JsonFacts.add_movie_present.
      cbn [StorageJson.data]. unfold dict_keys. rewrite fmap_app.
      apply elem_of_app. right. apply list_elem_of_here.
Qed.

Lemma add_listed_then_refused_witness :
  let cs := StorageCsv.init [StorageCsv.Line "Heat" "1995" "8.3" "h.jpg" ""] in
  let js :=
    StorageJson.init
      [("Heat", {[ "year" := PInt 1995; "rating" := PFloat (PyFloat "8.3");
                   "image-url" := PStr "h.jpg" ]})] in
  let y := PStr "2009" in
  let r := PFloat (PyFloat "8.2") in
  let p := PStr "url1" in
  let cs' := (StorageCsv.add_movie "Up" y r p cs).1 in
  let js' := (StorageJson.add_movie "Up" y r p js).1 in
  (∃ d, StorageCsv.list_movies cs' = StorageCsv.LDict d ∧
     d !! "Up" = Some {[ "year" := y; "rating" := r; "poster" := p ]} ∧
     ∀ y' r' p',
       StorageCsv.add_movie "Up" y' r' p' cs' = (cs', "Movie already exists")) ∧
  (dict_get "Up" (StorageJson.list_movies js')
     = Some {[ "year" := y; "rating" := r; "image-url" := p ]} ∧
   ∀ y' r' p',
     StorageJson.add_movie "Up" y' r' p' js' = (js', "Movie already exists")).
Proof.
  apply add_listed_then_refused.
  - intros H. by_cases_of H.
  - intros H. by_cases_of H.
  - reflexivity.
  - reflexivity.
Defined.

(** C2, as stated, fails on the structured-document store: with "Up"
    stored, the title "up" is not a key of [list_movies], yet
    [delete_movie "up"] reports a deletion and empties the listing. *)
Lemma delete_absent_counterexample :
  let st :=
    (StorageJson.add_movie "Up" (PInt 2009) (PFloat (PyFloat "8.2"))
       (PStr "url1") (StorageJson.init [])).1 in
  ("up" ∉ dict_keys (StorageJson.list_movies st)) ∧
  StorageJson.delete_movie "up" st
    = ({| StorageJson.data := []; StorageJson.file := [] |},
       "up has been deleted from the database") ∧
  StorageJson.list_movies (StorageJson.delete_movie "up" st).1
    ≠ StorageJson.list_movies st.
Proof.
  split_and!; [|reflexivity|].
  - intros H. by_cases_of H.
  - intros E. apply (f_equal length) in E. vm_compute in E. discriminate.
Qed.

(** C2, amended.  In the delimited-text store, [delete_movie t] for a
    title that no row carries, and in the structured-document store,
    [delete_movie t] for a title that no stored title equals when letter
    case is ignored, answer that [t] does not exist and leave the store,
    hence [list_movies], as it was. *)
Theorem delete_absent_unchanged {L : StrLower}
    (cs : StorageCsv.store) (js : StorageJson.store) (t : string) :
  t ∉ StorageCsv.titles cs →
  (∀ k, k ∈ dict_keys (StorageJson.data js) → lower t ≠ lower k) →
  (StorageCsv.delete_movie t cs
     = (cs, t +:+ " does not exist in the database") ∧
   StorageCsv.list_movies (StorageCsv.delete_movie t cs).1
     = StorageCsv.list_movies cs) ∧
  (StorageJson.delete_movie t js
     = (js, t +:+ " does not exist in the database") ∧
   StorageJson.list_movies (StorageJson.delete_movie t js).1
     = StorageJson.list_movies js).
Proof.
  intros Hc Hj.
  rewrite (CsvFacts.delete_movie_absent _ _ Hc).
  by rewrite (JsonFacts.delete_movie_none _ _ Hj).
Qed.

Lemma delete_absent_unchanged_witness :
  let cs := StorageCsv.init [StorageCsv.Line "Up" "2009" "8.2" "url1" ""] in
  let js :=
    (StorageJson.add_movie "Up" (PInt 2009) (PFloat (PyFloat "8.2"))
       (PStr "url1") (StorageJson.init [])).1 in
  (StorageCsv.delete_movie "Down" cs
     = (cs, "Down" +:+ " does not exist in the database") ∧
   StorageCsv.list_movies (StorageCsv.delete_movie "Down" cs).1
     = StorageCsv.list_movies cs) ∧
  (StorageJson.delete_movie "Down" js
     = (js, "Down" +:+ " does not exist in the database") ∧
   StorageJson.list_movies (StorageJson.delete_movie "Down" js).1
     = StorageJson.list_movies js).
Proof.
  apply delete_absent_unchanged.
  - intros H. by_cases_of H.
  - intros k H. by_cases_of H.
Defined.

(** C3, as stated, fails on the structured-document store: with "UP"
    and then "Up" stored, [delete_movie "Up"] removes the record keyed
    "UP", the first whose title matches when case is ignored, and the
    record keyed "Up" stays. *)
Lemma delete_present_counterexample :
  let st1 :=
    (StorageJson.add_movie "UP" (PInt 2009) (PFloat (PyFloat "8.2"))
       (PStr "url1") (StorageJson.init [])).1 in
  let st :=
    (StorageJson.add_movie "Up" (PInt 2009) (PFloat (PyFloat "8.2"))
       (PStr "url2") st1).1 in
  let st' := (StorageJson.delete_movie "Up" st).1 in
  dict_keys (StorageJson.list_movies st) = ["UP"; "Up"] ∧
  dict_keys (StorageJson.list_movies st') = ["Up"] ∧
  dict_get "Up" (StorageJson.list_movies st')
    = dict_get "Up" (StorageJson.list_movies st) ∧
  dict_get "UP" (StorageJson.list_movies st') = None.
Proof. split_and!; reflexivity. Qed.

(** C3, amended.  In the delimited-text store with distinct titles,
    [delete_movie t] for a title that a row carries removes exactly the
    record of [t] from what [list_movies] stands for: [t] is gone, every
    other record is as before, and there is one record less.  In the
    structured-document store, [delete_movie t] removes exactly the
    first record whose stored title equals [t] when letter case is
    ignored (the record keyed [t] itself when no earlier title differs
    from [t] only by case): the others stay, in order, one less. *)
Theorem delete_present_removes_one {L : StrLower}
    (cs : StorageCsv.store) (js : StorageJson.store) (t : string)
    (d1 : dict (gmap string pyval)) (k : string) (v : gmap string pyval)
    (d2 : dict (gmap string pyval)) :
  NoDup (StorageCsv.titles cs) →
  t ∈ StorageCsv.titles cs →
  StorageJson.list_movies js = d1 ++ (k, v) :: d2 →
  lower t = lower k →
  (∀ k', k' ∈ dict_keys d1 → lower t ≠ lower k') →
  let before := StorageCsv.records (StorageCsv.list_movies cs) in
  let after :=
    StorageCsv.records
      (StorageCsv.list_movies (StorageCsv.delete_movie t cs).1) in
  let js' := (StorageJson.delete_movie t js).1 in
  ((StorageCsv.delete_movie t cs).2
     = t +:+ " has been deleted from the database" ∧
   is_Some (before !! t) ∧
   after !! t = None ∧
   (∀ k', k' ≠ t → after !! k' = before !! k') ∧
   size before = S (size after)) ∧
  ((StorageJson.delete_movie t js).2
     = t +:+ " has been deleted from the database" ∧
   StorageJson.list_movies js' = d1 ++ d2 ∧
   StorageJson.file js' = d1 ++ d2 ∧
   length (StorageJson.list_movies js)
     = S (length (StorageJson.list_movies js'))).
Proof.
  intros Hnd Ht Hd Hk Hd1 before after js'. split.
  - subst before after.
    rewrite (CsvFacts.delete_movie_present _ _ Hnd Ht). cbn [fst snd].
    rewrite !CsvFacts.records_list_movies. cbn [StorageCsv.data].
    rewrite CsvFacts.dictionary_of_filter.
    assert (is_Some (StorageCsv.dictionary_of (StorageCsv.data cs) !! t))
      as Hsome by by apply CsvFacts.dictionary_of_titles.
    split_and!; [done|done|apply lookup_delete_eq| |].
    + intros k' Hk'. by apply lookup_delete_ne.
    + destruct Hsome as [x Hx].
      rewrite <-(insert_delete_id _ _ _ Hx) at 1.
      apply map_size_insert_None, lookup_delete_eq.
  - subst js'. unfold StorageJson.list_movies in *.
    rewrite (JsonFacts.delete_movie_first _ _ _ _ _ _ Hd Hk Hd1).
    cbn [fst snd StorageJson.data StorageJson.file].
    split_and!; [done..|]. rewrite Hd, !length_app. cbn. lia.
Qed.

Lemma delete_present_removes_one_witness :
  let cs :=
    StorageCsv.init [StorageCsv.Line "Heat" "1995" "8.3" "h.jpg" "";
                     StorageCsv.Line "Up" "2009" "8.2" "url1" ""] in
  let a := ({[ "year" := PInt 2009; "rating" := PFloat (PyFloat "8.2");
               "image-url" := PStr "url1" ]} : gmap string pyval) in
  let js := StorageJson.init [("UP", a); ("Up", a)] in
  let before := StorageCsv.records (StorageCsv.list_movies cs) in
  let after :=
    StorageCsv.records
      (StorageCsv.list_movies (StorageCsv.delete_movie "Up" cs).1) in
  let js' := (StorageJson.delete_movie "Up" js).1 in
  ((StorageCsv.delete_movie "Up" cs).2
     = "Up" +:+ " has been deleted from the database" ∧
   is_Some (before !! "Up") ∧
   after !! "Up" = None ∧
   (∀ k', k' ≠ "Up" → after !! k' = before !! k') ∧
   size before = S (size after)) ∧
  ((StorageJson.delete_movie "Up" js).2
     = "Up" +:+ " has been deleted from the database" ∧
   StorageJson.list_movies js' = [] ++ [("Up", a)] ∧
   StorageJson.file js' = [] ++ [("Up", a)] ∧
   length (StorageJson.list_movies js)
     = S (length (StorageJson.list_movies js'))).
Proof.
  intros cs a js.
  apply (delete_present_removes_one cs js "Up" [] "UP" a [("Up", a)]).
  - vm_compute. repeat constructor; intros H; by_cases_of H.
  - vm_compute. repeat constructor.
  - reflexivity.
  - reflexivity.
  - intros k' H. by_cases_of H.
Defined.

(** C4.  In the structured-document store, [delete_movie t] compares [t]
    with the stored titles in order, ignoring letter case: when none
    matches it answers that [t] does not exist and removes nothing; when
    one does, it removes the first such entry, writes the document that
    remains and reports the deletion.  One of the two is always the
    case. *)
Theorem json_delete_first_match {L : StrLower}
    (st : StorageJson.store) (t : string) :
  ((∀ k, k ∈ dict_keys (StorageJson.data st) → lower t ≠ lower k) →
   StorageJson.delete_movie t st
     = (st, t +:+ " does not exist in the database")) ∧
  (∀ d1 k v d2,
     StorageJson.data st = d1 ++ (k, v) :: d2 →
     lower t = lower k →
     (∀ k', k' ∈ dict_keys d1 → lower t ≠ lower k') →
     StorageJson.delete_movie t st
       = ({| StorageJson.data := d1 ++ d2;
             StorageJson.file := StorageJson.json_dump (d1 ++ d2) |},
          t +:+ " has been deleted from the database")) ∧
  ((∀ k, k ∈ dict_keys (StorageJson.data st) → lower t ≠ lower k) ∨
   ∃ d1 k v d2,
     StorageJson.data st = d1 ++ (k, v) :: d2 ∧ lower t = lower k ∧
     ∀ k', k' ∈ dict_keys d1 → lower t ≠ lower k').
Proof.
  split_and!.
  - apply JsonFacts.delete_movie_none.
  - intros d1 k v d2. apply JsonFacts.delete_movie_first.
  - apply JsonFacts.first_match.
Qed.

Lemma json_delete_first_match_witness :
  let a := ({[ "year" := PInt 2009; "rating" := PFloat (PyFloat "8.2");
               "image-url" := PStr "url1" ]} : gmap string pyval) in
  let b := ({[ "year" := PInt 1995; "rating" := PFloat (PyFloat "8.3");
               "image-url" := PStr "h.jpg" ]} : gmap string pyval) in
  let st := StorageJson.init [("Heat", b); ("UP", a); ("Up", a)] in
  StorageJson.delete_movie "Down" st
    = (st, "Down" +:+ " does not exist in the database") ∧
  StorageJson.delete_movie "up" st
    = ({| StorageJson.data := [("Heat", b)] ++ [("Up", a)];
          StorageJson.file :=
            StorageJson.json_dump ([("Heat", b)] ++ [("Up", a)]) |},
       "up" +:+ " has been deleted from the database").
Proof.
  intros a b st. split.
  - apply (proj1 (json_delete_first_match st "Down")).
    intros k H. by_cases_of H.
  - apply (proj1 (proj2 (json_delete_first_match st "up"))
             [("Heat", b)] "UP" a [("Up", a)]).
    + reflexivity.
    + reflexivity.
    + intros k H. by_cases_of H.
Defined.

(** C5.  In the structured-document store (its keys distinct, as in
    every dict), [update_movie t n] succeeds exactly when some stored
    record has a title equal to [t] when letter case is ignored and has
    an [image-url] field.  It then writes the note into the first such
    record, under the title as stored, and names that title in its
    answer; so after adding "Inception" with poster "http://x/p.jpg" to
    the empty store, [update_movie "inception" "great"] succeeds and the
    record under "Inception" has the note "great".  Otherwise it gives
    the one answer for "no such movie, or no [image-url]" and the store
    is as before. *)
Theorem json_update_needs_poster {L : StrLower}
    (st : StorageJson.store) (t n : string) :
  NoDup (dict_keys (StorageJson.data st)) →
  let failure :=
    "Movie does not exist or does not have an 'image-url' field." in
  ((StorageJson.update_movie t n st).2 ≠ failure ↔
   ∃ k v, (k, v) ∈ StorageJson.data st ∧
          lower t = lower k ∧ is_Some (v !! "image-url")) ∧
  (∀ d1 k v d2,
     StorageJson.data st = d1 ++ (k, v) :: d2 →
     lower t = lower k →
     is_Some (v !! "image-url") →
     (∀ k' v', (k', v') ∈ d1 →
               lower t = lower k' → v' !! "image-url" = None) →
     let st' := (StorageJson.update_movie t n st).1 in
     (StorageJson.update_movie t n st).2
       = "Note added to the movie '" +:+ k
         +:+ "' successfully. Now try to hover over the movie" ∧
     StorageJson.list_movies st' = d1 ++ (k, <["note" := PStr n]> v) :: d2 ∧
     StorageJson.file st' = d1 ++ (k, <["note" := PStr n]> v) :: d2 ∧
     dict_get k (StorageJson.list_movies st')
       = Some (<["note" := PStr n]> v)) ∧
  ((∀ k v, (k, v) ∈ StorageJson.data st →
           lower t = lower k → v !! "image-url" = None) →
   StorageJson.update_movie t n st = (st, failure)) ∧
  (∀ y r,
     let st1 :=
       (StorageJson.add_movie "Inception" y r (PStr "http://x/p.jpg")
          (StorageJson.init [])).1 in
     let st2 := (StorageJson.update_movie "inception" "great" st1).1 in
     (StorageJson.update_movie "inception" "great" st1).2 ≠ failure ∧
     dict_get "Inception" (StorageJson.list_movies st2) ≫= (.!! "note")
       = Some (PStr "great")).
Proof.
  intros Hnd failure. split_and!.
  - split.
    + intros Hmsg.
      destruct (JsonFacts.first_annotable t (StorageJson.data st))
        as [Hno|(d1 & k & v & d2 & Hd & [Hk Hv]%JsonFacts.annotable_true & _)].
      * by rewrite (JsonFacts.update_movie_none _ n _ Hno) in Hmsg.
      * exists k, v. split; [|done]. rewrite Hd.
        apply elem_of_app. right. apply list_elem_of_here.
    + intros (k & v & Hin & Hk & Hv).
      destruct (JsonFacts.first_annotable t (StorageJson.data st))
        as [Hno|(d1 & k1 & v1 & d2 & Hd & Hk1 & Hd1)].
      * apply Hno in Hin.
        pose proof (proj1 (JsonFacts.annotable_false t (k, v)) Hin Hk) as Hv'.
        cbn in Hv'. rewrite Hv' in Hv. by destruct Hv.
      * rewrite (JsonFacts.update_movie_first _ n _ _ _ _ _ Hnd Hd Hk1 Hd1).
        cbn [snd]. discriminate.
  - intros d1 k v d2 Hd Hk Hv Hd1 st'. subst st'.
    rewrite (JsonFacts.update_movie_first t n st d1 k v d2); [|done..| |].
    + cbn [fst snd]. unfold StorageJson.list_movies.
      cbn [StorageJson.data StorageJson.file]. split_and!; [done..|].
      apply dict_get_at. rewrite Hd in Hnd. unfold dict_keys in Hnd.
      rewrite fmap_app in Hnd. apply NoDup_app in Hnd as (_ & Hnd & _).
      intros Hin. apply (Hnd k Hin). apply list_elem_of_here.
    + by apply JsonFacts.annotable_true.
    + intros [k' v'] Hin. apply JsonFacts.annotable_false. eauto.
  - intros Hno. apply JsonFacts.update_movie_none.
    intros [k v] Hin. apply JsonFacts.annotable_false. eauto.
  - intros y r st1 st2. subst st2.
    set (v := ({[ "year" := y; "rating" := r;
                  "image-url" := PStr "http://x/p.jpg" ]} : gmap string pyval)).
    assert (st1 = {| StorageJson.data := [("Inception", v)];
                     StorageJson.file := [("Inception", v)] |}) as -> by done.
    rewrite (JsonFacts.update_movie_first "inception" "great" _
               [] "Inception" v []).
    + split; [discriminate|]. cbn [fst StorageJson.list_movies
        StorageJson.data app dict_get]. by rewrite decide_True.
    + cbn. apply NoDup_singleton.
    + done.
    + apply JsonFacts.annotable_true. cbn [fst snd]. split.
      * by rewrite !lower_on_ascii.
      * by eexists.
    + intros item H. by apply elem_of_nil in H.
Qed.

Lemma json_update_needs_poster_witness :
  let a := ({[ "year" := PInt 2009; "rating" := PFloat (PyFloat "8.2") ]}
            : gmap string pyval) in
  let b := ({[ "year" := PInt 2009; "rating" := PFloat (PyFloat "8.2");
               "image-url" := PStr "url1" ]} : gmap string pyval) in
  let st := StorageJson.init [("UP", a); ("Up", b)] in
  StorageJson.list_movies (StorageJson.update_movie "up" "fine" st).1
    = [("UP", a)] ++ [("Up", <["note" := PStr "fine"]> b)] ∧
  StorageJson.update_movie "Down" "fine" st
    = (st, "Movie does not exist or does not have an 'image-url' field.").
Proof.
  intros a b st.
  destruct (json_update_needs_poster st "up" "fine") as (_ & Hyes & _).
  { vm_compute. repeat constructor; intros H; by_cases_of H. }
  destruct (json_update_needs_poster st "Down" "fine") as (_ & _ & Hno & _).
  { vm_compute. repeat constructor; intros H; by_cases_of H. }
  split.
  - apply (Hyes [("UP", a)] "Up" b []); [reflexivity..| |].
    + by eexists.
    + intros k' v' H. by_cases_of H.
  - apply Hno. intros k v H. by_cases_of H.
Defined.

(** C6.  In the delimited-text store, [list_movies] of an empty working
    set is the text "Empty Database...", not a mapping.  Of any other
    working set it is a mapping whose keys are the titles of the rows
    and whose values have exactly the fields [year], [rating] and
    [poster], taken from a row of that title, and no [notes] field.
    [update_movie] changes nothing of it, also when it has just set the
    notes of the rows of a title. *)
Theorem csv_list_projection (st : StorageCsv.store) :
  (StorageCsv.data st = [] →
   StorageCsv.list_movies st = StorageCsv.LStr "Empty Database...") ∧
  (StorageCsv.data st ≠ [] →
   ∃ d, StorageCsv.list_movies st = StorageCsv.LDict d ∧
     (∀ k, is_Some (d !! k) ↔ k ∈ StorageCsv.titles st) ∧
     ∀ k v, d !! k = Some v →
       dom v = ({[ "year"; "rating"; "poster" ]} : gset string) ∧
       v !! "notes" = None ∧
       ∃ row, row ∈ StorageCsv.data st ∧ StorageCsv.title row = k ∧
         v !! "year" = Some (StorageCsv.year row) ∧
         v !! "rating" = Some (StorageCsv.rating row) ∧
         v !! "poster" = Some (StorageCsv.poster row)) ∧
  (∀ t n,
     StorageCsv.list_movies (StorageCsv.update_movie t n st).1
       = StorageCsv.list_movies st) ∧
  (∀ t n, t ∈ StorageCsv.titles st →
     (StorageCsv.update_movie t n st).2 = t +:+ " has been updated" ∧
     ∀ row, row ∈ StorageCsv.data (StorageCsv.update_movie t n st).1 →
       StorageCsv.title row = t → StorageCsv.notes row = Some (PStr n)).
Proof.
  split_and!.
  - apply CsvFacts.list_movies_nil.
  - intros Hd. exists (StorageCsv.dictionary_of (StorageCsv.data st)).
    split_and!.
    + by apply CsvFacts.list_movies_cons.
    + intros k. apply CsvFacts.dictionary_of_titles.
    + intros k v (row & Hrow & Hk & ->)%CsvFacts.dictionary_of_row.
      destruct (CsvFacts.projection_fields row) as (? & ? & ? & ? & ?).
      split_and!; [done..|]. by exists row.
  - intros t n. apply CsvFacts.list_movies_update.
  - intros t n. apply CsvFacts.update_movie_present.
Qed.

Lemma csv_list_projection_witness :
  let st0 := StorageCsv.init [] in
  let st1 :=
    (StorageCsv.add_movie "Up" (PStr "2009") (PFloat (PyFloat "8.2"))
       (PStr "url1") st0).1 in
  let st2 := (StorageCsv.update_movie "Up" "nice" st1).1 in
  StorageCsv.list_movies st0 = StorageCsv.LStr "Empty Database..." ∧
  StorageCsv.notes <$> StorageCsv.data st2 = [Some (PStr "nice")] ∧
  StorageCsv.list_movies st2 = StorageCsv.list_movies st1 ∧
  ∃ d, StorageCsv.list_movies st1 = StorageCsv.LDict d ∧
    (∀ k, is_Some (d !! k) ↔ k ∈ StorageCsv.titles st1) ∧
    ∀ k v, d !! k = Some v →
      dom v = ({[ "year"; "rating"; "poster" ]} : gset string) ∧
      v !! "notes" = None ∧
      ∃ row, row ∈ StorageCsv.data st1 ∧ StorageCsv.title row = k ∧
        v !! "year" = Some (StorageCsv.year row) ∧
        v !! "rating" = Some (StorageCsv.rating row) ∧
        v !! "poster" = Some (StorageCsv.poster row).
Proof.
  intros st0 st1 st2. split_and!.
  - by apply (proj1 (csv_list_projection st0)).
  - reflexivity.
  - apply (proj1 (proj2 (proj2 (csv_list_projection st1)))).
  - by apply (proj1 (proj2 (csv_list_projection st1))).
Defined.

(** C7.  In the delimited-text store, as any session on any file leaves
    it, [update_movie t n] for a title that no row carries answers that
    [t] does not exist; it writes the file anew from the unchanged
    working set, which gives the file it already had: the store, and so
    every notes field and [list_movies], are as before. *)
Theorem csv_update_absent
    (f : list StorageCsv.line) (cs : list command) (t n : string) :
  let st := run cs (StorageCsv.init f) in
  t ∉ StorageCsv.titles st →
  StorageCsv.update_movie t n st
    = ({| StorageCsv.data := StorageCsv.data st;
          StorageCsv.file := StorageCsv.write_file (StorageCsv.data st) |},
       t +:+ " does not exist") ∧
  StorageCsv.update_movie t n st = (st, t +:+ " does not exist") ∧
  StorageCsv.list_movies (StorageCsv.update_movie t n st).1
    = StorageCsv.list_movies st.
Proof.
  intros st Ht. rewrite (CsvFacts.update_movie_absent _ _ _ Ht).
  assert (StorageCsv.synced st) as Hs
    by apply CsvFacts.csv_synced_run, CsvFacts.csv_synced_init.
  unfold StorageCsv.synced in Hs. rewrite <-Hs. by destruct st.
Qed.

Lemma csv_update_absent_witness :
  let st :=
    run
      [Add "Heat" (PStr "1995") (PFloat (PyFloat "8.3")) (PStr "h.jpg");
       Update "Up" "nice"]
      (StorageCsv.init [StorageCsv.Line "Up" "2009" "8.2" "url1" ""]) in
  StorageCsv.update_movie "Down" "dull" st
    = ({| StorageCsv.data := StorageCsv.data st;
          StorageCsv.file := StorageCsv.write_file (StorageCsv.data st) |},
       "Down" +:+ " does not exist") ∧
  StorageCsv.update_movie "Down" "dull" st
    = (st, "Down" +:+ " does not exist") ∧
  StorageCsv.list_movies (StorageCsv.update_movie "Down" "dull" st).1
    = StorageCsv.list_movies st.
Proof.
  apply csv_update_absent. intros H. by_cases_of H.
Defined.

(** C8, as stated, fails on the delimited-text store: after
    [add_movie "Up" 2009 8.2 "url1"] on the empty store the listing holds
    the integer and the float, while a store built from the file that
    call wrote lists them as the texts "2009" and "8.2". *)
Lemma reload_counterexample :
  let st :=
    (StorageCsv.add_movie "Up" (PInt 2009) (PFloat (PyFloat "8.2"))
       (PStr "url1") (StorageCsv.init [])).1 in
  StorageCsv.list_movies st
    = StorageCsv.LDict
        {[ "Up" := {[ "year" := PInt 2009;
                      "rating" := PFloat (PyFloat "8.2");
                      "poster" := PStr "url1" ]} ]} ∧
  StorageCsv.list_movies (StorageCsv.init (StorageCsv.file st))
    = StorageCsv.LDict
        {[ "Up" := {[ "year" := PStr "2009";
                      "rating" := PStr "8.2";
                      "poster" := PStr "url1" ]} ]} ∧
  StorageCsv.list_movies (StorageCsv.init (StorageCsv.file st))
    ≠ StorageCsv.list_movies st.
Proof.
  split_and!; [reflexivity..|]. intros H.
  apply (f_equal (λ l, StorageCsv.records l !! "Up" ≫= (.!! "year"))) in H.
  vm_compute in H. discriminate.
Qed.

(** C8, amended.  After any session on any file, a store built anew
    from the backing file lists, in the structured-document store,
    exactly what the first store lists; in the delimited-text store, the
    same titles with every year, rating and poster as its text: exactly
    the first store's listing when those values are all strings, while a
    number comes back as a string. *)
Theorem reload_reproduces_listing {L : StrLower}
    (fj : list (string * gmap string pyval)) (fc : list StorageCsv.line)
    (cs : list command) :
  let js := run cs (StorageJson.init fj) in
  let st := run cs (StorageCsv.init fc) in
  StorageJson.list_movies (StorageJson.init (StorageJson.file js))
    = StorageJson.list_movies js ∧
  StorageCsv.list_movies (StorageCsv.init (StorageCsv.file st))
    = StorageCsv.as_text (StorageCsv.list_movies st) ∧
  ((∀ row, row ∈ StorageCsv.data st → StorageCsv.textual row) →
   StorageCsv.list_movies (StorageCsv.init (StorageCsv.file st))
     = StorageCsv.list_movies st).
Proof.
  intros js st.
  assert (StorageCsv.synced st) as Hs
    by apply CsvFacts.csv_synced_run, CsvFacts.csv_synced_init.
  split_and!.
  - apply JsonFacts.json_list_movies_reload,
      JsonFacts.json_synced_run, JsonFacts.json_synced_init.
  - by apply CsvFacts.csv_list_movies_reload.
  - intros Hall. rewrite CsvFacts.csv_list_movies_reload by done.
    by apply CsvFacts.as_text_textual.
Qed.

Lemma reload_reproduces_listing_witness :
  let cs :=
    [Add "Up" (PStr "2009") (PStr "8.2") (PStr "url1");
     Update "Up" "nice"; Delete "Heat"] in
  let st :=
    run cs
      (StorageCsv.init [StorageCsv.Line "Heat" "1995" "8.3" "h.jpg" ""]) in
  StorageCsv.list_movies (StorageCsv.init (StorageCsv.file st))
    = StorageCsv.list_movies st.
Proof.
  intros cs st.
  apply (proj2 (proj2 (reload_reproduces_listing
    [] [StorageCsv.Line "Heat" "1995" "8.3" "h.jpg" ""] cs))).
  intros row H. by_cases_of H. by eexists _, _, _.
Defined.

(** C9, as stated, fails at its last step: the second
    [add_movie "Up"] answers "Movie already exists", in which "Up" does
    not occur. *)
Lemma json_end_to_end_counterexample :
  let st1 :=
    (StorageJson.add_movie "Up" (PInt 2009) (PFloat (PyFloat "8.2"))
       (PStr "url1") (StorageJson.init [])).1 in
  let st2 := (StorageJson.delete_movie "Down" st1).1 in
  let again :=
    (StorageJson.add_movie "Up" (PInt 2009) (PFloat (PyFloat "8.2"))
       (PStr "url1") st2).2 in
  again = "Movie already exists" ∧ str_in "Up" again = false.
Proof. split; reflexivity. Qed.

(** C9, amended.  On the structured-document store built from the empty
    document, [add_movie "Up" 2009 8.2 "url1"] answers "Up has been added
    to the database"; then [delete_movie "Down"] answers "Down does not
    exist in the database"; then a second [add_movie "Up"], with any
    values, answers "Movie already exists", which does not name the
    title, and the store still holds the first record. *)
Theorem json_end_to_end {L : StrLower} (y r p : pyval) :
  let st0 := StorageJson.init [] in
  let a1 :=
    StorageJson.add_movie "Up" (PInt 2009) (PFloat (PyFloat "8.2"))
      (PStr "url1") st0 in
  let a2 := StorageJson.delete_movie "Down" a1.1 in
  let a3 := StorageJson.add_movie "Up" y r p a2.1 in
  StorageJson.list_movies st0 = [] ∧
  a1.2 = "Up has been added to the database" ∧
  str_in "Up" a1.2 = true ∧
  a2.2 = "Down does not exist in the database" ∧
  str_in "Down" a2.2 = true ∧
  a3.2 = "Movie already exists" ∧
  str_in "Up" a3.2 = false ∧
  StorageJson.list_movies a3.1
    = [("Up", {[ "year" := PInt 2009; "rating" := PFloat (PyFloat "8.2");
                 "image-url" := PStr "url1" ]})].
Proof.
  intros st0 a1 a2 a3.
  assert (a2 = (a1.1, "Down does not exist in the database")) as Ha2.
  { subst a2. apply JsonFacts.delete_movie_none.
    intros k H. by_cases_of H. by rewrite !lower_on_ascii. }
  subst a3. clearbody a2. subst a2. split_and!; reflexivity.
Qed.

(** C10.  In the delimited-text store with an empty working set,
    [add_movie] looks the title up in the text "Empty Database...": it
    answers "Movie already exists" and leaves the store empty exactly
    for the titles that occur in that text as a run of characters,
    "Data" for one, and adds the record for every other title. *)
Theorem csv_add_on_empty_store
    (st : StorageCsv.store) (t : string) (y r p : pyval) :
  StorageCsv.data st = [] →
  ((StorageCsv.add_movie t y r p st).2 = "Movie already exists" ↔
   ∃ pre post, "Empty Database..." = pre +:+ t +:+ post) ∧
  ((∃ pre post, "Empty Database..." = pre +:+ t +:+ post) →
   StorageCsv.add_movie t y r p st = (st, "Movie already exists")) ∧
  ((¬ ∃ pre post, "Empty Database..." = pre +:+ t +:+ post) →
   StorageCsv.add_movie t y r p st
     = (let data' := [StorageCsv.Row t y r p None] in
        {| StorageCsv.data := data';
           StorageCsv.file := StorageCsv.write_file data' |},
        t +:+ " added to the database")) ∧
  StorageCsv.contains "Data" (StorageCsv.list_movies st) = true.
Proof.
  intros Hd. pose proof (CsvFacts.list_movies_nil _ Hd) as Hl.
  assert (∀ u, StorageCsv.contains u (StorageCsv.list_movies st) = true ↔
               ∃ pre post, "Empty Database..." = pre +:+ u +:+ post) as Hin.
  { intros u. rewrite Hl. apply str_in_spec. }
  split_and!.
  - rewrite <-Hin. unfold StorageCsv.add_movie.
    destruct (StorageCsv.contains _ _); [done|]. cbn [snd].
    split; [|done]. intros H. symmetry in H.
    by apply longer_suffix_ne in H; [|cbn; lia].
  - intros H%Hin. by apply CsvFacts.add_movie_refused.
  - intros H. rewrite CsvFacts.add_movie_done, Hd; [done|].
    apply not_true_iff_false. by rewrite Hin.
  - rewrite Hl. reflexivity.
Qed.

Lemma csv_add_on_empty_store_witness :
  let st := StorageCsv.init [] in
  StorageCsv.add_movie "Data" (PStr "2009") (PFloat (PyFloat "8.2"))
    (PStr "url1") st = (st, "Movie already exists") ∧
  StorageCsv.add_movie "Up" (PStr "2009") (PFloat (PyFloat "8.2"))
    (PStr "url1") st
    = (let data' :=
         [StorageCsv.Row "Up" (PStr "2009") (PFloat (PyFloat "8.2"))
            (PStr "url1") None] in
       {| StorageCsv.data := data';
          StorageCsv.file := StorageCsv.write_file data' |},
       "Up" +:+ " added to the database").
Proof.
  intros st. split.
  - apply (csv_add_on_empty_store st "Data"); [reflexivity|].
    by exists "Empty ", "base...".
  - apply (csv_add_on_empty_store st "Up"); [reflexivity|].
    intros H%str_in_spec. by vm_compute in H.
Defined.

(** * Further properties of the stores *)

(** ** The delimited-text store *)

Lemma titles_list_remove (m : StorageCsv.row) (d : list StorageCsv.row) x :
  x ∈ StorageCsv.title <$> list_remove m d → x ∈ StorageCsv.title <$> d.
Proof.
  induction d as [|a d IH]; [done|]. cbn [list_remove]. case_decide.
  - intros Hx. cbn [fmap list_fmap]. by apply list_elem_of_further.
  - cbn [fmap list_fmap]. intros [->|Hx]%elem_of_cons.
    + apply list_elem_of_here.
    + apply list_elem_of_further. auto.
Qed.

Lemma titles_list_remove_NoDup (m : StorageCsv.row) (d : list StorageCsv.row) :
  NoDup (StorageCsv.title <$> d) →
  NoDup (StorageCsv.title <$> list_remove m d).
Proof.
  induction d as [|a d IH]; [done|]. cbn [list_remove fmap list_fmap].
  intros [Ha Hd]%NoDup_cons. case_decide; [done|].
  cbn [fmap list_fmap]. apply NoDup_cons. split; [|auto].
  intros Hin. by apply Ha, (titles_list_remove m).
Qed.

Lemma csv_exec_titles_NoDup (c : command) (st : StorageCsv.store) :
  NoDup (StorageCsv.titles st) → NoDup (StorageCsv.titles (exec c st).1).
Proof.
  intros Hnd. destruct c as [t y r p|t|t n]; unfold exec;
    cbn [i_add_movie i_delete_movie i_update_movie csv_storage].
  - unfold StorageCsv.add_movie.
    destruct (StorageCsv.contains _ _) eqn:Hc; [done|].
    unfold StorageCsv.titles in *. cbn [fst StorageCsv.data].
    rewrite fmap_app. apply NoDup_app. split_and!; [done| |apply NoDup_singleton].
    intros x Hx ->%list_elem_of_singleton.
    apply (CsvFacts.contains_listed _ st) in Hx. cbn in Hx. congruence.
  - unfold StorageCsv.delete_movie. destruct (find _ _); [|done].
    by apply titles_list_remove_NoDup.
  - unfold StorageCsv.update_movie, StorageCsv.titles.
    destruct (existsb _ _); cbn [fst StorageCsv.data];
      by rewrite CsvFacts.titles_set_notes.
Qed.

(** X1.  A delimited-text store whose rows have distinct titles keeps
    them distinct through any session of add, delete and update. *)
Theorem csv_titles_stay_distinct (cs : list command) (st : StorageCsv.store) :
  NoDup (StorageCsv.titles st) → NoDup (StorageCsv.titles (run cs st)).
Proof.
  revert st. induction cs as [|c cs IH]; intros st Hst; [done|].
  apply IH. by apply csv_exec_titles_NoDup.
Qed.

Lemma csv_titles_stay_distinct_witness :
  NoDup (StorageCsv.titles
    (run [Add "Up" (PStr "2009") (PFloat (PyFloat "8.2")) (PStr "url1");
          Add "Up" (PStr "2010") (PFloat (PyFloat "1.0")) (PStr "url2");
          Update "Up" "nice"; Delete "Heat"]
       (StorageCsv.init [StorageCsv.Line "Heat" "1995" "8.3" "h.jpg" ""]))).
Proof.
  apply csv_titles_stay_distinct.
  vm_compute. repeat constructor; intros H; by_cases_of H.
Defined.

(** X2.  On a delimited-text store that has rows, [add_movie] compares
    the title with the titles of the rows exactly, letter case
    included: for a title that a row carries it answers "Movie already
    exists" and changes nothing; for any other it puts a row without
    notes after the others, writes the file from the rows and names the
    title in its answer. *)
Theorem csv_add_on_filled_store
    (st : StorageCsv.store) (t : string) (y r p : pyval) :
  StorageCsv.data st ≠ [] →
  (t ∈ StorageCsv.titles st →
   StorageCsv.add_movie t y r p st = (st, "Movie already exists")) ∧
  (t ∉ StorageCsv.titles st →
   StorageCsv.add_movie t y r p st
     = (let data' := StorageCsv.data st ++ [StorageCsv.Row t y r p None] in
        {| StorageCsv.data := data';
           StorageCsv.file := StorageCsv.write_file data' |},
        t +:+ " added to the database")).
Proof.
  intros Hd. split.
  - intros Ht. by apply CsvFacts.add_movie_refused, CsvFacts.contains_listed.
  - intros Ht. apply CsvFacts.add_movie_done.
    rewrite CsvFacts.list_movies_cons by done. cbn [StorageCsv.contains].
    apply bool_decide_eq_false. by rewrite CsvFacts.dictionary_of_titles.
Qed.

Lemma csv_add_on_filled_store_witness :
  let st := StorageCsv.init [StorageCsv.Line "Up" "2009" "8.2" "url1" ""] in
  StorageCsv.add_movie "Up" (PStr "2010") (PStr "1.0") (PStr "url2") st
    = (st, "Movie already exists") ∧
  StorageCsv.add_movie "up" (PStr "2010") (PStr "1.0") (PStr "url2") st
    = (let data' :=
         StorageCsv.data st
         ++ [StorageCsv.Row "up" (PStr "2010") (PStr "1.0") (PStr "url2")
               None] in
       {| StorageCsv.data := data';
          StorageCsv.file := StorageCsv.write_file data' |},
       "up" +:+ " added to the database").
Proof.
  intros st. split.
  - apply (csv_add_on_filled_store st "Up"); [done|].
    vm_compute. repeat constructor.
  - apply (csv_add_on_filled_store st "up"); [done|].
    intros H. by_cases_of H.
Defined.

Lemma list_remove_at (m : StorageCsv.row) (l1 l2 : list StorageCsv.row) :
  StorageCsv.title m ∉ StorageCsv.title <$> l1 →
  list_remove m (l1 ++ m :: l2) = l1 ++ l2.
Proof.
  induction l1 as [|a l1 IH]; cbn [list_remove app fmap list_fmap].
  - intros _. by rewrite decide_True.
  - intros [Hne Hl1]%not_elem_of_cons.
    rewrite decide_False by (intros ->; done). by rewrite IH.
Qed.

(** X3.  [delete_movie] of the delimited-text store removes the first
    row that carries the title and no other, also when several rows
    carry it; the file is written from the rows that remain.  When a
    later row carries the title too, the title is still listed and
    still refused by [add_movie]. *)
Theorem csv_delete_first_row_only
    (st : StorageCsv.store) (t : string)
    (l1 : list StorageCsv.row) (m : StorageCsv.row)
    (l2 : list StorageCsv.row) :
  StorageCsv.data st = l1 ++ m :: l2 →
  StorageCsv.title m = t →
  t ∉ StorageCsv.title <$> l1 →
  let st' := (StorageCsv.delete_movie t st).1 in
  StorageCsv.delete_movie t st
    = ({| StorageCsv.data := l1 ++ l2;
          StorageCsv.file := StorageCsv.write_file (l1 ++ l2) |},
       t +:+ " has been deleted from the database") ∧
  (t ∈ StorageCsv.title <$> l2 →
   is_Some (StorageCsv.records (StorageCsv.list_movies st') !! t) ∧
   ∀ y r p, StorageCsv.add_movie t y r p st' = (st', "Movie already exists")).
Proof.
  intros Hd Hm Hl1 st'.
  assert (StorageCsv.delete_movie t st
    = ({| StorageCsv.data := l1 ++ l2;
          StorageCsv.file := StorageCsv.write_file (l1 ++ l2) |},
       t +:+ " has been deleted from the database")) as Hdel.
  { unfold StorageCsv.delete_movie.
    replace (find _ _) with (Some m).
    - rewrite Hd, list_remove_at; [done|]. by rewrite Hm.
    - symmetry. apply find_first. exists l1, l2. split_and!; [done| |].
      + by apply bool_decide_eq_true.
      + intros a Ha. apply bool_decide_eq_false. intros ->.
        apply Hl1, list_elem_of_fmap. by exists a. }
  split; [done|]. intros Hl2. subst st'. rewrite Hdel. cbn [fst].
  set (st' := StorageCsv.Store _ _).
  assert (t ∈ StorageCsv.titles st') as Ht.
  { unfold StorageCsv.titles, st'. cbn [StorageCsv.data].
    rewrite fmap_app. apply elem_of_app. by right. }
  split.
  - rewrite CsvFacts.records_list_movies.
    by apply CsvFacts.dictionary_of_titles.
  - intros y r p.
    by apply CsvFacts.add_movie_refused, CsvFacts.contains_listed.
Qed.

Lemma csv_delete_first_row_only_witness :
  let a := StorageCsv.Line "Up" "2009" "8.2" "url1" "" in
  let b := StorageCsv.Line "Heat" "1995" "8.3" "h.jpg" "" in
  let c := StorageCsv.Line "Up" "2010" "1.0" "url2" "again" in
  let st := StorageCsv.init [b; a; c] in
  let st' := (StorageCsv.delete_movie "Up" st).1 in
  StorageCsv.data st'
    = [StorageCsv.read_row b] ++ [StorageCsv.read_row c] ∧
  ∀ y r p, StorageCsv.add_movie "Up" y r p st' = (st', "Movie already exists").
Proof.
  intros a b c st st'.
  destruct (csv_delete_first_row_only st "Up" [StorageCsv.read_row b]
              (StorageCsv.read_row a) [StorageCsv.read_row c])
    as [Hdel Hstill]; [reflexivity..| |].
  { intros H. by_cases_of H. }
  split.
  - subst st'. by rewrite Hdel.
  - apply Hstill. vm_compute. repeat constructor.
Defined.

(** X4.  [update_movie] of the delimited-text store writes the note to
    the file: a store built from the file it wrote has the same titles,
    the new note in every row of the title, and in every other row the
    text of the notes it had (the empty text when it had none). *)
Theorem csv_notes_survive_reload (st : StorageCsv.store) (t n : string) :
  let st' := (StorageCsv.update_movie t n st).1 in
  let again := StorageCsv.init (StorageCsv.file st') in
  StorageCsv.titles again = StorageCsv.titles st ∧
  StorageCsv.notes <$> StorageCsv.data again
    = (λ row,
         Some (PStr (if decide (t = StorageCsv.title row) then n
                     else from_option cell_text "" (StorageCsv.notes row))))
      <$> StorageCsv.data st.
Proof.
  intros st' again.
  assert (StorageCsv.data again
    = (StorageCsv.read_row ∘ StorageCsv.write_row ∘ StorageCsv.set_notes t n)
      <$> StorageCsv.data st) as ->.
  { subst again st'. unfold StorageCsv.update_movie.
    destruct (existsb _ _); cbn [fst StorageCsv.init StorageCsv.data
                                   StorageCsv.file];
      unfold StorageCsv.write_file; by rewrite <-!list_fmap_compose. }
  unfold StorageCsv.titles. subst again st'. split.
  - unfold StorageCsv.update_movie.
    destruct (existsb _ _); cbn [fst StorageCsv.init StorageCsv.data
                                   StorageCsv.file];
      unfold StorageCsv.write_file; rewrite <-!list_fmap_compose;
      apply list_fmap_ext; intros _ row _; cbn;
      unfold StorageCsv.set_notes; by case_decide.
  - rewrite <-list_fmap_compose. apply list_fmap_ext. intros _ row _. cbn.
    unfold StorageCsv.set_notes. by case_decide.
Qed.

Lemma set_notes_twice t n1 n2 (row : StorageCsv.row) :
  StorageCsv.set_notes t n2 (StorageCsv.set_notes t n1 row)
    = StorageCsv.set_notes t n2 row.
Proof.
  unfold StorageCsv.set_notes.
  repeat (case_decide; cbn in *); first [done|congruence].
Qed.

Lemma set_notes_swap t1 t2 n1 n2 (row : StorageCsv.row) :
  t1 ≠ t2 →
  StorageCsv.set_notes t1 n1 (StorageCsv.set_notes t2 n2 row)
    = StorageCsv.set_notes t2 n2 (StorageCsv.set_notes t1 n1 row).
Proof.
  intros Hne. unfold StorageCsv.set_notes.
  repeat (case_decide; cbn in *); first [done|congruence].
Qed.

(** X5.  In the delimited-text store a second [update_movie] of a title
    replaces the note of the first: the store and the answer are those
    of the second call alone.  Updates of two different titles give the
    same store in either order. *)
Theorem csv_update_overrides_and_commutes
    (st : StorageCsv.store) (t1 t2 n1 n2 : string) :
  StorageCsv.update_movie t1 n2 (StorageCsv.update_movie t1 n1 st).1
    = StorageCsv.update_movie t1 n2 st ∧
  (t1 ≠ t2 →
   (StorageCsv.update_movie t1 n1 (StorageCsv.update_movie t2 n2 st).1).1
     = (StorageCsv.update_movie t2 n2
          (StorageCsv.update_movie t1 n1 st).1).1).
Proof.
  split.
  - assert (StorageCsv.data (StorageCsv.update_movie t1 n1 st).1
            = StorageCsv.set_notes t1 n1 <$> StorageCsv.data st) as Hd.
    { unfold StorageCsv.update_movie. by destruct (existsb _ _). }
    unfold StorageCsv.update_movie at 1. rewrite Hd.
    rewrite <-list_fmap_compose.
    rewrite (list_fmap_ext _ (StorageCsv.set_notes t1 n2));
      [done|]. intros _ row _. apply set_notes_twice.
  - intros Hne.
    assert (∀ t n s, (StorageCsv.update_movie t n s).1
      = {| StorageCsv.data := StorageCsv.set_notes t n <$> StorageCsv.data s;
           StorageCsv.file :=
             StorageCsv.write_file
               (StorageCsv.set_notes t n <$> StorageCsv.data s) |}) as Hu.
    { intros t n s. unfold StorageCsv.update_movie. by destruct (existsb _ _). }
    rewrite !Hu. cbn [StorageCsv.data]. rewrite <-!list_fmap_compose.
    rewrite (list_fmap_ext
               (StorageCsv.set_notes t1 n1 ∘ StorageCsv.set_notes t2 n2)
               (StorageCsv.set_notes t2 n2 ∘ StorageCsv.set_notes t1 n1));
      [done|]. intros _ row _. by apply set_notes_swap.
Qed.

Lemma csv_update_overrides_and_commutes_witness :
  let st :=
    StorageCsv.init [StorageCsv.Line "Up" "2009" "8.2" "url1" "";
                     StorageCsv.Line "Heat" "1995" "8.3" "h.jpg" ""] in
  (StorageCsv.update_movie "Up" "nice"
     (StorageCsv.update_movie "Heat" "long" st).1).1
    = (StorageCsv.update_movie "Heat" "long"
         (StorageCsv.update_movie "Up" "nice" st).1).1.
Proof.
  intros st.
  by apply (proj2 (csv_update_overrides_and_commutes st "Up" "Heat"
                     "nice" "long")).
Defined.

(** ** The structured-document store *)

Lemma dict_set_elem {V} (k0 : string) (v0 : V) (d : dict V) k v :
  (k, v) ∈ dict_set k0 v0 d → (k, v) = (k0, v0) ∨ (k, v) ∈ d.
Proof.
  induction d as [|[k' v'] d IH]; cbn [dict_set].
  - intros ->%list_elem_of_singleton. by left.
  - case_decide as Hk.
    + intros [Heq|Hin]%elem_of_cons.
      * left. by simplify_eq.
      * right. by apply list_elem_of_further.
    + intros [Heq|Hin]%elem_of_cons.
      * right. rewrite Heq. apply list_elem_of_here.
      * destruct (IH Hin) as [?|?]; [by left|].
        right. by apply list_elem_of_further.
Qed.

Lemma dict_del_elem {V} (k0 : string) (d : dict V) k v :
  (k, v) ∈ dict_del k0 d → (k, v) ∈ d.
Proof.
  induction d as [|[k' v'] d IH]; cbn [dict_del]; [done|].
  case_decide.
  - intros Hin. by apply list_elem_of_further.
  - intros [Heq|Hin]%elem_of_cons.
    + rewrite Heq. apply list_elem_of_here.
    + apply list_elem_of_further. auto.
Qed.

(** X6.  In the structured-document store, deleting a title right after
    adding it gives back the document as it was, when no title stored
    before equals it with letter case ignored; the file then holds that
    document. *)
Theorem json_add_then_delete {L : StrLower}
    (st : StorageJson.store) (t : string) (y r p : pyval) :
  (∀ k, k ∈ dict_keys (StorageJson.data st) → lower t ≠ lower k) →
  (StorageJson.add_movie t y r p st).2
    = t +:+ " has been added to the database" ∧
  StorageJson.delete_movie t (StorageJson.add_movie t y r p st).1
    = ({| StorageJson.data := StorageJson.data st;
          StorageJson.file := StorageJson.json_dump (StorageJson.data st) |},
       t +:+ " has been deleted from the database").
Proof.
  intros Hno.
  assert (t ∉ dict_keys (StorageJson.data st)) as Ht.
  { intros Hin. by apply (Hno t). }
  rewrite (JsonFacts.add_movie_fresh _ y r p _ Ht). cbn [fst snd].
  split; [done|].
  rewrite (JsonFacts.delete_movie_first t _ (StorageJson.data st) t
             {[ "year" := y; "rating" := r; "image-url" := p ]} []);
    [by rewrite app_nil_r|done..].
Qed.

Lemma json_add_then_delete_witness :
  let a := ({[ "year" := PInt 1995; "rating" := PFloat (PyFloat "8.3");
               "image-url" := PStr "h.jpg" ]} : gmap string pyval) in
  let st := StorageJson.init [("Heat", a)] in
  (StorageJson.add_movie "Up" (PInt 2009) (PFloat (PyFloat "8.2"))
     (PStr "url1") st).2
    = "Up" +:+ " has been added to the database" ∧
  StorageJson.delete_movie "Up"
    (StorageJson.add_movie "Up" (PInt 2009) (PFloat (PyFloat "8.2"))
       (PStr "url1") st).1
    = ({| StorageJson.data := StorageJson.data st;
          StorageJson.file := StorageJson.json_dump (StorageJson.data st) |},
       "Up" +:+ " has been deleted from the database").
Proof.
  intros a st. apply json_add_then_delete.
  intros k H. by_cases_of H.
Defined.

(** X7.  [update_movie] of the structured-document store (its keys
    distinct, as in every dict) never adds, removes or moves a title,
    and changes no field but [note]: every record is found again under
    its title with all other fields as they were, and a record without
    [image-url] is left exactly as it was. *)
Theorem json_update_touches_only_notes {L : StrLower}
    (st : StorageJson.store) (t n : string) :
  NoDup (dict_keys (StorageJson.data st)) →
  let st' := (StorageJson.update_movie t n st).1 in
  dict_keys (StorageJson.data st') = dict_keys (StorageJson.data st) ∧
  ∀ k v, (k, v) ∈ StorageJson.data st →
    ∃ v', dict_get k (StorageJson.data st') = Some v' ∧
      (∀ f, f ≠ "note" → v' !! f = v !! f) ∧
      (v !! "image-url" = None → v' = v).
Proof.
  intros Hnd st'.
  assert (∀ d1 k v d2, StorageJson.data st = d1 ++ (k, v) :: d2 →
                       k ∉ dict_keys d1) as Hfresh.
  { intros d1 k v d2 Hd. rewrite Hd in Hnd. unfold dict_keys in Hnd.
    rewrite fmap_app in Hnd. apply NoDup_app in Hnd as (_ & Hnd & _).
    intros Hin. apply (Hnd k Hin). apply list_elem_of_here. }
  assert (∀ k v, (k, v) ∈ StorageJson.data st →
                 dict_get k (StorageJson.data st) = Some v) as Hget.
  { intros k v (d1 & d2 & Hd)%list_elem_of_split. rewrite Hd.
    apply dict_get_at. by eapply Hfresh. }
  destruct (JsonFacts.first_annotable t (StorageJson.data st))
    as [Hno|(d1 & k0 & v0 & d2 & Hd & Hk0 & Hd1)].
  - subst st'. rewrite (JsonFacts.update_movie_none _ n _ Hno). cbn [fst].
    split; [done|]. intros k v Hin. exists v. auto.
  - subst st'.
    rewrite (JsonFacts.update_movie_first _ n _ _ _ _ _ Hnd Hd Hk0 Hd1).
    cbn [fst StorageJson.data]. split.
    + rewrite Hd. unfold dict_keys. by rewrite !fmap_app.
    + intros k v Hin.
      destruct (decide (k = k0)) as [->|Hne].
      * assert (v = v0) as ->.
        { apply Hget in Hin. rewrite Hd, dict_get_at in Hin by eauto.
          by simplify_eq. }
        exists (<["note" := PStr n]> v0). split_and!.
        -- apply dict_get_at. eauto.
        -- intros f Hf. by rewrite lookup_insert_ne.
        -- intros Hnone. apply JsonFacts.annotable_true in Hk0 as [_ Hsome].
           cbn in Hsome. rewrite Hnone in Hsome. by destruct Hsome.
      * exists v. split_and!; [|done..].
        rewrite <-(Hget k v Hin), Hd.
        clear -Hne. induction d1 as [|[k1 v1] d1 IH]; cbn [app dict_get].
        -- by rewrite !decide_False.
        -- case_decide; [done|]. apply IH.
Qed.

Lemma json_update_touches_only_notes_witness :
  let a := ({[ "year" := PInt 2009; "rating" := PFloat (PyFloat "8.2") ]}
            : gmap string pyval) in
  let b := ({[ "year" := PInt 2009; "rating" := PFloat (PyFloat "8.2");
               "image-url" := PStr "url1" ]} : gmap string pyval) in
  let st := StorageJson.init [("UP", a); ("Up", b)] in
  let st' := (StorageJson.update_movie "up" "fine" st).1 in
  dict_keys (StorageJson.data st') = dict_keys (StorageJson.data st) ∧
  ∀ k v, (k, v) ∈ StorageJson.data st →
    ∃ v', dict_get k (StorageJson.data st') = Some v' ∧
      (∀ f, f ≠ "note" → v' !! f = v !! f) ∧
      (v !! "image-url" = None → v' = v).
Proof.
  apply json_update_touches_only_notes.
  vm_compute. repeat constructor; intros H; by_cases_of H.
Defined.

(** X8.  In the structured-document store (its keys distinct) a second
    [update_movie], under the same title or one that differs from it
    only in letter case, replaces the note of the first: the store and
    the answer are those of the second call alone. *)
Theorem json_update_overrides {L : StrLower}
    (st : StorageJson.store) (t1 t2 n1 n2 : string) :
  NoDup (dict_keys (StorageJson.data st)) →
  lower t1 = lower t2 →
  StorageJson.update_movie t2 n2 (StorageJson.update_movie t1 n1 st).1
    = StorageJson.update_movie t2 n2 st.
Proof.
  intros Hnd Heq.
  assert (∀ item, StorageJson.annotable t1 item
                  = StorageJson.annotable t2 item) as Hsame.
  { intros item. unfold StorageJson.annotable. by rewrite Heq. }
  destruct (JsonFacts.first_annotable t1 (StorageJson.data st))
    as [Hno|(d1 & k0 & v0 & d2 & Hd & Hk0 & Hd1)].
  - by rewrite (JsonFacts.update_movie_none _ n1 _ Hno).
  - rewrite (JsonFacts.update_movie_first _ n1 _ _ _ _ _ Hnd Hd Hk0 Hd1).
    rewrite Hsame in Hk0.
    assert (∀ item, item ∈ d1 → StorageJson.annotable t2 item = false)
      as Hd1'.
    { intros item Hin. rewrite <-Hsame. auto. }
    rewrite (JsonFacts.update_movie_first _ n2 _ _ _ _ _ Hnd Hd Hk0 Hd1').
    cbn [fst].
    rewrite (JsonFacts.update_movie_first t2 n2 _ d1 k0
               (<["note" := PStr n1]> v0) d2).
    + by rewrite insert_insert_eq.
    + cbn [StorageJson.data]. rewrite Hd in Hnd.
      unfold dict_keys in *. by rewrite fmap_app in *.
    + done.
    + apply JsonFacts.annotable_true in Hk0 as [Hk Hv].
      apply JsonFacts.annotable_true. split; [done|]. cbn in *.
      by rewrite lookup_insert_ne.
    + done.
Qed.

Lemma json_update_overrides_witness :
  let b := ({[ "year" := PInt 2009; "rating" := PFloat (PyFloat "8.2");
               "image-url" := PStr "url1" ]} : gmap string pyval) in
  let st := StorageJson.init [("Up", b)] in
  StorageJson.update_movie "up" "better"
    (StorageJson.update_movie "UP" "fine" st).1
    = StorageJson.update_movie "up" "better" st.
Proof.
  intros b st. apply json_update_overrides; [|reflexivity].
  vm_compute. repeat constructor; intros H; by_cases_of H.
Defined.

Lemma json_exec_complete {L : StrLower} (c : command) (st : StorageJson.store) :
  MovieApp.complete (StorageJson.data st) →
  MovieApp.complete (StorageJson.data (exec c st).1).
Proof.
  intros Hst. destruct c as [t y r p|t|t n]; unfold exec;
    cbn [i_add_movie i_delete_movie i_update_movie json_storage].
  - unfold StorageJson.add_movie. destruct (dict_mem _ _); [done|].
    cbn [fst StorageJson.data]. intros k v [Heq|Hin]%dict_set_elem; [|eauto].
    simplify_eq. split_and!; by eexists.
  - unfold StorageJson.delete_movie. destruct (find _ _); [|done].
    cbn [fst StorageJson.data]. intros k v Hin%dict_del_elem. eauto.
  - unfold StorageJson.update_movie.
    destruct (find _ _) as [[k0 v0]|] eqn:Hfind; [|done].
    cbn [fst StorageJson.data]. intros k v [Heq|Hin]%dict_set_elem; [|eauto].
    simplify_eq. apply find_first in Hfind as (d1 & d2 & Hd & _ & _).
    destruct (Hst k0 v0) as (? & ? & ?).
    { rewrite Hd. apply elem_of_app. right. apply list_elem_of_here. }
    by rewrite !lookup_insert_ne.
Qed.

Lemma json_run_complete {L : StrLower} (cs : list command) (st : StorageJson.store) :
  MovieApp.complete (StorageJson.data st) →
  MovieApp.complete (StorageJson.data (run cs st)).
Proof.
  revert st. induction cs as [|c cs IH]; intros st Hst; [done|].
  apply IH. by apply json_exec_complete.
Qed.

(** X9.  In the structured-document store, when every record has the
    fields [year], [rating] and [image-url], so it is after any session
    of add, delete and update: [add_movie] writes all three and
    [update_movie] adds [note] beside them. *)
Theorem json_records_stay_complete {L : StrLower}
    (cs : list command) (st : StorageJson.store) :
  MovieApp.complete (StorageJson.data st) →
  MovieApp.complete (StorageJson.data (run cs st)).
Proof. apply json_run_complete. Qed.

Lemma json_records_stay_complete_witness :
  MovieApp.complete
    (StorageJson.data
       (run [Add "Up" (PInt 2009) (PFloat (PyFloat "8.2")) (PStr "url1");
             Update "up" "fine"; Delete "Heat"]
          (StorageJson.init []))).
Proof.
  apply json_records_stay_complete.
  intros k v H. by apply elem_of_nil in H.
Defined.

(** ** The application *)

Lemma append_nil_r (s : string) : s +:+ "" = s.
Proof. induction s as [|c s IH]; [done|]. by rewrite append_cons, IH. Qed.

Lemma append_assoc (s1 s2 s3 : string) :
  (s1 +:+ s2) +:+ s3 = s1 +:+ s2 +:+ s3.
Proof.
  induction s1 as [|c s1 IH]; [done|]. by rewrite !append_cons, IH.
Qed.

Lemma csv_items_snoc (d : list StorageCsv.row) (row : StorageCsv.row) :
  MovieApp.csv_items (d ++ [row])
    = dict_set (StorageCsv.title row) (StorageCsv.projection row)
               (MovieApp.csv_items d).
Proof. unfold MovieApp.csv_items. by rewrite foldl_app. Qed.

Lemma dict_set_not_nil {V} (k : string) (v : V) (d : dict V) :
  dict_set k v d ≠ [].
Proof. destruct d as [|[k' v'] d]; cbn [dict_set]; [done|]. by case_decide. Qed.

Lemma csv_items_nil (d : list StorageCsv.row) :
  MovieApp.csv_items d = [] ↔ d = [].
Proof.
  destruct d as [|row d _] using rev_ind; [done|].
  rewrite csv_items_snoc. split.
  - intros H. by apply dict_set_not_nil in H.
  - intros H. by apply app_nil in H as [_ ?].
Qed.

Lemma csv_items_projection (d : list StorageCsv.row) k v :
  (k, v) ∈ MovieApp.csv_items d →
  ∃ row, row ∈ d ∧ k = StorageCsv.title row ∧ v = StorageCsv.projection row.
Proof.
  induction d as [|row d IH] using rev_ind.
  - intros H. by apply elem_of_nil in H.
  - rewrite csv_items_snoc. intros [Heq|Hin]%dict_set_elem.
    + simplify_eq. exists row. split; [|done].
      apply elem_of_app. right. apply list_elem_of_here.
    + destruct (IH Hin) as (row' & ? & ? & ?). exists row'.
      split; [|done]. apply elem_of_app. by left.
Qed.

(** The ordered listing is the listing of the claims, in order. *)
Lemma list_to_map_dict_set {V} (k : string) (v : V) (d : dict V) :
  (list_to_map (dict_set k v d) : gmap string V)
    = <[k := v]> (list_to_map d).
Proof.
  induction d as [|[k' v'] d IH]; [done|]. cbn [dict_set].
  case_decide as Hk.
  - subst k'. cbn [list_to_map foldr uncurry fst snd]. cbn.
    by rewrite insert_insert_eq.
  - cbn. rewrite IH. by apply insert_insert_ne.
Qed.

Lemma csv_items_agree (d : list StorageCsv.row) :
  list_to_map (MovieApp.csv_items d) = StorageCsv.dictionary_of d.
Proof.
  induction d as [|row d IH] using rev_ind; [done|].
  by rewrite csv_items_snoc, list_to_map_dict_set, IH,
    CsvFacts.dictionary_of_snoc.
Qed.

Lemma csv_list_movies_agree (st : StorageCsv.store) :
  match StorageCsv.list_movies st, MovieApp.csv_list_movies st with
  | StorageCsv.LStr s, MovieApp.OStr s' => s = s'
  | StorageCsv.LDict m, MovieApp.ODict d => list_to_map d = m
  | _, _ => False
  end.
Proof.
  unfold MovieApp.csv_list_movies.
  destruct (StorageCsv.data st) as [|row d] eqn:Hd.
  - by rewrite (CsvFacts.list_movies_nil st).
  - rewrite (CsvFacts.list_movies_cons st) by (by rewrite Hd).
    rewrite Hd, <-csv_items_agree.
    destruct (MovieApp.csv_items (row :: d)) eqn:Hi; [|done].
    by apply csv_items_nil in Hi.
Qed.

(** X10.  With no record stored, the two stores treat the reading
    commands differently.  On the structured-document store the
    listing answers "No movies in the database.", the random pick
    returns nothing, the search finds nothing and the page is empty.
    On the delimited-text store [list_movies] gives the text "Empty
    Database...", and each of the four commands raises
    [AttributeError], the text having no [items] and no [keys]. *)
Theorem app_on_empty_store {L : StrLower}
    (cs : StorageCsv.store) (js : StorageJson.store)
    (randbelow : nat → nat) (keyword : string) :
  StorageCsv.data cs = [] →
  StorageJson.data js = [] →
  let c := MovieApp.csv_list_movies cs in
  let j := MovieApp.json_list_movies js in
  (MovieApp.execute_command_1 j
     = MovieApp.Return "No movies in the database." ∧
   MovieApp._command_random_movie randbelow j = MovieApp.Return None ∧
   MovieApp._command_search_movie keyword j = MovieApp.Return [] ∧
   MovieApp._command_serialise_website j = MovieApp.Return "") ∧
  (MovieApp.execute_command_1 c = MovieApp.Raise MovieApp.AttributeError ∧
   MovieApp._command_random_movie randbelow c
     = MovieApp.Raise MovieApp.AttributeError ∧
   MovieApp._command_search_movie keyword c
     = MovieApp.Raise MovieApp.AttributeError ∧
   MovieApp._command_serialise_website c
     = MovieApp.Raise MovieApp.AttributeError).
Proof.
  intros Hc Hj c j. subst c j.
  unfold MovieApp.csv_list_movies, MovieApp.json_list_movies,
    StorageJson.list_movies.
  by rewrite Hc, Hj.
Qed.

Lemma app_on_empty_store_witness :
  let c := MovieApp.csv_list_movies (StorageCsv.init []) in
  let j := MovieApp.json_list_movies (StorageJson.init []) in
  (MovieApp.execute_command_1 j
     = MovieApp.Return "No movies in the database." ∧
   MovieApp._command_random_movie (λ _, 0) j = MovieApp.Return None ∧
   MovieApp._command_search_movie "up" j = MovieApp.Return [] ∧
   MovieApp._command_serialise_website j = MovieApp.Return "") ∧
  (MovieApp.execute_command_1 c = MovieApp.Raise MovieApp.AttributeError ∧
   MovieApp._command_random_movie (λ _, 0) c
     = MovieApp.Raise MovieApp.AttributeError ∧
   MovieApp._command_search_movie "up" c
     = MovieApp.Raise MovieApp.AttributeError ∧
   MovieApp._command_serialise_website c
     = MovieApp.Raise MovieApp.AttributeError).
Proof. by apply app_on_empty_store. Defined.

Lemma list_movies_loop_rows (d : dict (gmap string pyval))
    (acc : list (gmap string pyval)) :
  (∀ k v, (k, v) ∈ d → is_Some (v !! "rating") ∧ is_Some (v !! "year")) →
  ∃ rows, MovieApp.list_movies_loop acc d = MovieApp.Return (acc ++ rows) ∧
    Forall2 (λ item row,
               row !! "Title" = Some (PStr item.1) ∧
               row !! "Rating" = item.2 !! "rating" ∧
               row !! "Year" = item.2 !! "year") d rows.
Proof.
  revert acc. induction d as [|[k v] d IH]; intros acc Hall.
  - exists []. split; [by rewrite app_nil_r|constructor].
  - destruct (Hall k v) as [[x Hx] [y Hy]]; [apply list_elem_of_here|].
    destruct (IH (acc ++ [{[ "Title" := PStr k; "Rating" := x; "Year" := y ]}]))
      as (rows & Hrows & Hfa).
    { intros k' v' Hin. apply (Hall k' v'). by apply list_elem_of_further. }
    exists ({[ "Title" := PStr k; "Rating" := x; "Year" := y ]} :: rows).
    split.
    + cbn [MovieApp.list_movies_loop]. unfold MovieApp.getitem.
      rewrite Hx, Hy. cbn. rewrite Hrows. by rewrite <-(assoc_L (++)).
    + constructor; [|done]. cbn. by rewrite Hx, Hy.
Qed.

Lemma list_movies_loop_KeyError (d : dict (gmap string pyval))
    (acc : list (gmap string pyval)) :
  (∃ k v, (k, v) ∈ d ∧ (v !! "rating" = None ∨ v !! "year" = None)) →
  MovieApp.list_movies_loop acc d = MovieApp.Raise MovieApp.KeyError.
Proof.
  revert acc. induction d as [|[k v] d IH]; intros acc (k0 & v0 & Hin & Hbad).
  - by apply elem_of_nil in Hin.
  - cbn [MovieApp.list_movies_loop]. unfold MovieApp.getitem.
    destruct (v !! "rating") as [x|] eqn:Hx; [|done].
    destruct (v !! "year") as [y|] eqn:Hy; [|done]. cbn.
    apply IH. exists k0, v0. split; [|done].
    apply elem_of_cons in Hin as [Heq|Hin]; [|done].
    simplify_eq. destruct Hbad; congruence.
Qed.

(** X11.  [_command_list_movies] on a dict returns one entry per
    record, in the order of the dict, with the record's title, rating
    and year, when every record has a rating and a year; when some
    record lacks one of them it raises [KeyError]. *)
Theorem app_list_movies_rows (d : dict (gmap string pyval)) :
  ((∀ k v, (k, v) ∈ d → is_Some (v !! "rating") ∧ is_Some (v !! "year")) →
   ∃ rows,
     MovieApp._command_list_movies (MovieApp.ODict d) = MovieApp.Return rows ∧
     Forall2 (λ item row,
                row !! "Title" = Some (PStr item.1) ∧
                row !! "Rating" = item.2 !! "rating" ∧
                row !! "Year" = item.2 !! "year") d rows) ∧
  ((∃ k v, (k, v) ∈ d ∧ (v !! "rating" = None ∨ v !! "year" = None)) →
   MovieApp._command_list_movies (MovieApp.ODict d)
     = MovieApp.Raise MovieApp.KeyError).
Proof.
  split.
  - intros Hall. by apply (list_movies_loop_rows d []).
  - apply list_movies_loop_KeyError.
Qed.

Lemma app_list_movies_rows_witness :
  let a := ({[ "year" := PInt 2009; "rating" := PFloat (PyFloat "8.2");
               "image-url" := PStr "url1" ]} : gmap string pyval) in
  let b := ({[ "year" := PInt 1995 ]} : gmap string pyval) in
  (∃ rows,
     MovieApp._command_list_movies (MovieApp.ODict [("Up", a)])
       = MovieApp.Return rows ∧
     Forall2 (λ item row,
                row !! "Title" = Some (PStr item.1) ∧
                row !! "Rating" = item.2 !! "rating" ∧
                row !! "Year" = item.2 !! "year") [("Up", a)] rows) ∧
  MovieApp._command_list_movies (MovieApp.ODict [("Up", a); ("Heat", b)])
    = MovieApp.Raise MovieApp.KeyError.
Proof.
  intros a b. split.
  - apply (proj1 (app_list_movies_rows [("Up", a)])).
    intros k v H. by_cases_of H.
  - apply (proj2 (app_list_movies_rows [("Up", a); ("Heat", b)])).
    exists "Heat", b. split; [|by left].
    apply list_elem_of_further, list_elem_of_here.
Defined.

Lemma print_movies_loop_returns (rows : list (gmap string pyval))
    (out : string) :
  Forall (λ row, is_Some (row !! "Title") ∧ is_Some (row !! "Rating") ∧
                 is_Some (row !! "Year")) rows →
  ∃ text, MovieApp.print_movies_loop out rows = MovieApp.Return text.
Proof.
  revert out. induction rows as [|row rows IH]; intros out Hall.
  - by exists out.
  - apply Forall_cons in Hall as [([x Hx] & [y Hy] & [z Hz]) Hall].
    cbn [MovieApp.print_movies_loop]. unfold MovieApp.getitem.
    rewrite Hx, Hy, Hz. cbn. by apply IH.
Qed.

Lemma serialise_loop_returns (d : dict (gmap string pyval)) (out : string) :
  (∀ k v, (k, v) ∈ d → is_Some (v !! "year")) →
  ∃ page, MovieApp.serialise_loop out d = MovieApp.Return page.
Proof.
  revert out. induction d as [|[k v] d IH]; intros out Hall.
  - by exists out.
  - cbn [MovieApp.serialise_loop].
    destruct (Hall k v) as [y Hy]; [apply list_elem_of_here|].
    assert (∃ b, MovieApp.movie_block k v = MovieApp.Return b) as [b Hb].
    { unfold MovieApp.movie_block, MovieApp.getitem. rewrite Hy.
      destruct (v !! "image-url") as [u|]; [|by eexists].
      destruct (MovieApp.truthy u); by eexists. }
    rewrite Hb. cbn. apply IH.
    intros k' v' Hin. apply (Hall k' v'). by apply list_elem_of_further.
Qed.

(** X12.  On a structured-document store whose records all have
    [year], [rating] and [image-url] (the empty document for one),
    after any session of add, delete and update, none of the listing,
    the printed listing and the page raises: the listing has one entry
    per record. *)
Theorem app_reads_after_session {L : StrLower}
    (cs : list command) (st : StorageJson.store) :
  MovieApp.complete (StorageJson.data st) →
  let movies := MovieApp.json_list_movies (run cs st) in
  (∃ rows, MovieApp._command_list_movies movies = MovieApp.Return rows ∧
           length rows = length (StorageJson.data (run cs st))) ∧
  (∃ text, MovieApp.execute_command_1 movies = MovieApp.Return text) ∧
  (∃ page, MovieApp._command_serialise_website movies = MovieApp.Return page).
Proof.
  intros Hst movies. subst movies.
  apply (json_run_complete cs) in Hst.
  unfold MovieApp.json_list_movies, StorageJson.list_movies.
  set (d := StorageJson.data (run cs st)) in *.
  destruct (list_movies_loop_rows d []) as (rows & Hrows & Hfa).
  { intros k v Hin. destruct (Hst k v Hin) as (? & ? & ?). done. }
  assert (MovieApp._command_list_movies (MovieApp.ODict d)
          = MovieApp.Return rows) as Hlist by done.
  split_and!.
  - exists rows. split; [done|]. symmetry. by eapply Forall2_length.
  - unfold MovieApp.execute_command_1. rewrite Hlist. cbn.
    destruct rows as [|row rows]; [by eexists|].
    apply print_movies_loop_returns.
    clear -Hfa Hst. revert Hfa Hst. generalize (row :: rows). intros l.
    revert l. induction d as [|[k v] d IH]; intros l Hfa Hst.
    + apply Forall2_nil_inv_l in Hfa as ->. constructor.
    + apply Forall2_cons_inv_l in Hfa as (r & l' & (Ht & Hr & Hy) & Hfa & ->).
      destruct (Hst k v) as (? & ? & ?); [apply list_elem_of_here|].
      constructor.
      * cbn in *. rewrite Ht, Hr, Hy. done.
      * apply IH; [done|]. intros k' v' Hin. apply (Hst k' v').
        by apply list_elem_of_further.
  - apply serialise_loop_returns.
    intros k v Hin. destruct (Hst k v Hin) as (? & ? & ?). done.
Qed.

Lemma app_reads_after_session_witness :
  let st :=
    run [Add "Up" (PInt 2009) (PFloat (PyFloat "8.2")) (PStr "url1");
         Update "up" "fine"; Delete "Heat"]
      (StorageJson.init []) in
  let movies := MovieApp.json_list_movies st in
  (∃ rows, MovieApp._command_list_movies movies = MovieApp.Return rows ∧
           length rows = length (StorageJson.data st)) ∧
  (∃ text, MovieApp.execute_command_1 movies = MovieApp.Return text) ∧
  (∃ page, MovieApp._command_serialise_website movies = MovieApp.Return page).
Proof.
  apply (app_reads_after_session _ (StorageJson.init [])).
  intros k v H. by apply elem_of_nil in H.
Defined.

Lemma List_filter_sublist {A} (f : A → bool) (l : list A) :
  List.filter f l `sublist_of` l.
Proof.
  induction l as [|a l IH]; cbn [List.filter]; [done|].
  destruct (f a); by constructor.
Qed.

Lemma List_filter_all {A} (f : A → bool) (l : list A) :
  (∀ x, f x = true) → List.filter f l = l.
Proof.
  intros Hf. induction l as [|a l IH]; cbn [List.filter]; [done|].
  by rewrite Hf, IH.
Qed.

(** X13.  [_command_search_movie] on a dict returns, in the order of
    the dict, exactly the titles in which the keyword occurs when
    letter case is ignored on both sides; nothing but stored titles;
    every title for the empty keyword. *)
Theorem app_search_finds_titles {L : StrLower}
    (keyword : string) (d : dict (gmap string pyval)) :
  ∃ matches,
    MovieApp._command_search_movie keyword (MovieApp.ODict d)
      = MovieApp.Return matches ∧
    (∀ title, title ∈ matches ↔
       title ∈ dict_keys d ∧
       ∃ pre post, lower title = pre +:+ lower keyword +:+ post) ∧
    matches `sublist_of` dict_keys d ∧
    (keyword = "" → matches = dict_keys d).
Proof.
  eexists. split; [reflexivity|]. split_and!.
  - intros title. by rewrite <-str_in_spec, !list_elem_of_In, filter_In.
  - apply List_filter_sublist.
  - intros ->. apply List_filter_all. intros title.
    rewrite (lower_on_ascii "") by done. by destruct (lower title).
Qed.

Lemma app_search_finds_titles_witness :
  let a := ({[ "year" := PInt 2009 ]} : gmap string pyval) in
  MovieApp._command_search_movie "" (MovieApp.ODict [("Up", a); ("Heat", a)])
    = MovieApp.Return (dict_keys [("Up", a); ("Heat", a)]).
Proof.
  intros a.
  destruct (app_search_finds_titles "" [("Up", a); ("Heat", a)])
    as (matches & Hret & _ & _ & Hall).
  by rewrite Hret, Hall.
Defined.

(** X14.  [_command_random_movie] on a dict with records names a
    stored title, whichever index within range the generator draws. *)
Theorem app_random_names_stored_title
    (randbelow : nat → nat) (d : dict (gmap string pyval)) :
  d ≠ [] →
  (∀ n, 0 < n → randbelow n < n) →
  ∃ title, title ∈ dict_keys d ∧
    MovieApp._command_random_movie randbelow (MovieApp.ODict d)
      = MovieApp.Return
          (Some ("The movie for the night is '" +:+ title +:+ "'")).
Proof.
  intros Hd Hrb. unfold MovieApp._command_random_movie.
  cbn [MovieApp.len MovieApp.items].
  assert (0 < length (dict_keys d)) as Hlen.
  { unfold dict_keys. rewrite length_fmap. destruct d; [done|cbn; lia]. }
  replace (Nat.eqb (length d) 0) with false
    by (destruct d; [done|reflexivity]).
  cbn. destruct (lookup_lt_is_Some_2 (dict_keys d)
                   (randbelow (length (dict_keys d)))) as [title Ht]; [auto|].
  exists title. rewrite Ht. split; [|done].
  apply list_elem_of_lookup. eauto.
Qed.

Lemma app_random_names_stored_title_witness :
  let a := ({[ "year" := PInt 2009 ]} : gmap string pyval) in
  ∃ title, title ∈ dict_keys [("Up", a); ("Heat", a)] ∧
    MovieApp._command_random_movie (λ n, n - 1)
      (MovieApp.ODict [("Up", a); ("Heat", a)])
      = MovieApp.Return
          (Some ("The movie for the night is '" +:+ title +:+ "'")).
Proof.
  intros a. apply app_random_names_stored_title; [done|].
  intros n Hn. lia.
Defined.

Lemma serialise_loop_blank (d : dict (gmap string pyval)) (out : string) :
  (∀ k v, (k, v) ∈ d → MovieApp.movie_block k v = MovieApp.Return "") →
  MovieApp.serialise_loop out d = MovieApp.Return out.
Proof.
  revert out. induction d as [|[k v] d IH]; intros out Hall; [done|].
  cbn [MovieApp.serialise_loop].
  rewrite (Hall k v) by apply list_elem_of_here. cbn.
  rewrite append_nil_r. apply IH.
  intros k' v' Hin. apply (Hall k' v'). by apply list_elem_of_further.
Qed.

(** X15.  The page of a delimited-text store never shows a movie:
    [_command_serialise_website] looks for the field [image-url], the
    rows are listed with [poster], so on every store that has rows it
    returns the empty text. *)
Theorem app_page_of_csv_store_is_blank (st : StorageCsv.store) :
  StorageCsv.data st ≠ [] →
  MovieApp._command_serialise_website (MovieApp.csv_list_movies st)
    = MovieApp.Return "".
Proof.
  intros Hd. unfold MovieApp.csv_list_movies.
  destruct (MovieApp.csv_items (StorageCsv.data st)) as [|item its] eqn:Hi.
  { by apply csv_items_nil in Hi. }
  cbn [MovieApp._command_serialise_website MovieApp.items mbind
       MovieApp.outcome_bind].
  apply serialise_loop_blank. rewrite <-Hi.
  intros k v (row & _ & _ & ->)%csv_items_projection. done.
Qed.

Lemma app_page_of_csv_store_is_blank_witness :
  MovieApp._command_serialise_website
    (MovieApp.csv_list_movies
       (run [Add "Heat" (PStr "1995") (PFloat (PyFloat "8.3")) (PStr "h.jpg");
             Update "Up" "nice"]
          (StorageCsv.init [StorageCsv.Line "Up" "2009" "8.2" "url1" ""])))
    = MovieApp.Return "".
Proof. by apply app_page_of_csv_store_is_blank. Defined.

Lemma str_in_append_r (n a b : string) :
  str_in n b = true → str_in n (a +:+ b) = true.
Proof.
  rewrite !str_in_spec. intros (pre & post & ->).
  exists (a +:+ pre), post. by rewrite append_assoc.
Qed.

Lemma str_in_append_l (n a b : string) :
  str_in n a = true → str_in n (a +:+ b) = true.
Proof.
  rewrite !str_in_spec. intros (pre & post & ->).
  exists pre, (post +:+ b). by rewrite !append_assoc.
Qed.

Lemma str_in_head (n hay rest : string) :
  hay = n +:+ rest → str_in n hay = true.
Proof. intros ->. apply str_in_spec. by exists "", rest. Qed.

Lemma serialise_loop_extends (d : dict (gmap string pyval))
    (out page : string) :
  MovieApp.serialise_loop out d = MovieApp.Return page →
  ∃ rest, page = out +:+ rest.
Proof.
  revert out. induction d as [|[k v] d IH]; intros out.
  - intros [= <-]. exists "". by rewrite append_nil_r.
  - cbn [MovieApp.serialise_loop].
    destruct (MovieApp.movie_block k v) as [e|b]; [done|]. cbn.
    intros (rest & ->)%IH. exists (b +:+ rest). by rewrite append_assoc.
Qed.

Lemma serialise_loop_holds_block (d : dict (gmap string pyval))
    (out page : string) k v :
  (k, v) ∈ d →
  MovieApp.serialise_loop out d = MovieApp.Return page →
  ∃ b, MovieApp.movie_block k v = MovieApp.Return b ∧
       ∀ n, str_in n b = true → str_in n page = true.
Proof.
  revert out. induction d as [|[k' v'] d IH]; intros out Hin.
  - by apply elem_of_nil in Hin.
  - cbn [MovieApp.serialise_loop].
    destruct (MovieApp.movie_block k' v') as [e|b'] eqn:Hb; [done|]. cbn.
    apply elem_of_cons in Hin as [Heq|Hin].
    + simplify_eq. intros (rest & ->)%serialise_loop_extends.
      exists b'. split; [done|]. intros n Hn.
      by apply str_in_append_l, str_in_append_r.
    + by apply IH.
Qed.

(** Looks for the needle among the pieces of a text put together with
    [+:+]. *)
Ltac find_piece :=
  rewrite ?append_assoc;
  repeat first
    [ by (eapply str_in_head; rewrite ?append_assoc; reflexivity)
    | apply str_in_append_r ].

(** X16.  On the page that [_command_serialise_website] returns for a
    dict, every record whose [image-url] is a value that counts as
    true (a text that is not empty, for one) has its title in a heading
    and, when it carries a note, the note in a paragraph. *)
Theorem app_page_shows_record
    (d : dict (gmap string pyval)) (title : string)
    (info : gmap string pyval) (image_url : pyval) (page : string) :
  (title, info) ∈ d →
  info !! "image-url" = Some image_url →
  MovieApp.truthy image_url = true →
  MovieApp._command_serialise_website (MovieApp.ODict d)
    = MovieApp.Return page →
  str_in ("<h2 class=" +:+ MovieApp.quoted "movie-title" +:+ ">"
          +:+ title +:+ "</h2>") page = true ∧
  ∀ note, info !! "note" = Some note →
    str_in ("<p class=" +:+ MovieApp.quoted "movie-note" +:+ ">"
            +:+ MovieApp.py_str note +:+ "</p>") page = true.
Proof.
  intros Hin Hurl Htrue Hpage.
  destruct (serialise_loop_holds_block d "" page title info Hin Hpage)
    as (b & Hb & Hsub).
  unfold MovieApp.movie_block, MovieApp.getitem in Hb.
  rewrite Hurl, Htrue in Hb.
  destruct (info !! "year") as [year|]; [|done]. cbn in Hb.
  split.
  - apply Hsub. destruct (info !! "note"); simplify_eq;
      unfold MovieApp.quoted; find_piece.
  - intros note Hnote. apply Hsub. rewrite Hnote in Hb. simplify_eq.
    unfold MovieApp.quoted. find_piece.
Qed.

Lemma app_page_shows_record_witness :
  let st :=
    run [Add "Up" (PInt 2009) (PFloat (PyFloat "8.2")) (PStr "url1");
         Update "up" "fine"]
      (StorageJson.init []) in
  ∃ page,
    MovieApp._command_serialise_website (MovieApp.json_list_movies st)
      = MovieApp.Return page ∧
    str_in ("<h2 class=" +:+ MovieApp.quoted "movie-title" +:+ ">"
            +:+ "Up" +:+ "</h2>") page = true ∧
    str_in ("<p class=" +:+ MovieApp.quoted "movie-note" +:+ ">"
            +:+ MovieApp.py_str (PStr "fine") +:+ "</p>") page = true.
Proof.
  intros st. eexists. split; [reflexivity|].
  set (info := (<["note" := PStr "fine"]>
                  {[ "year" := PInt 2009; "rating" := PFloat (PyFloat "8.2");
                     "image-url" := PStr "url1" ]} : gmap string pyval)).
  destruct (app_page_shows_record [("Up", info)] "Up" info (PStr "url1") _
              ltac:(apply list_elem_of_here) eq_refl eq_refl eq_refl)
    as [Htitle Hnote].
  split; [exact Htitle|]. by apply Hnote.
Defined.
